(** * Crash-game server: a shallow embedding of [src/main.py]

    The server keeps a table of user balances and a table of processed
    payment hashes in a database, and the bet registry, the two multipliers
    and two phase flags in module-level globals.  Request handlers and the
    coroutine [round_loop] all read and write that one state.

    Balances, stakes and multipliers are Python [float]s, that is IEEE-754
    binary64 numbers: they are modelled by Rocq's primitive [float], whose
    operations are the same binary64 operations.  User identifiers are
    Python [int]s ([Z]), hashes and memos are [string]s, the two tables and
    the registry are finite maps. *)

Set Warnings "-inexact-float".
From Stdlib Require Import ZArith Lia List Bool String Ascii.
From Stdlib Require Import Floats.
From Stdlib Require Uint63.
From stdpp Require Import gmap strings.
Import ListNotations.

Local Open Scope Z_scope.

(** ** Python numerics *)

(** Nearest integer to [a / b] for [b > 0], ties to the even integer. *)
Definition round_half_even_div (a b : Z) : Z :=
  let q := a / b in
  match 2 * (a mod b) ?= b with
  | Lt => q
  | Gt => q + 1
  | Eq => if Z.even q then q else q + 1
  end.

(** [round(x, 2)] on a float.  CPython rounds the exact binary value of [x]
    to two decimals, ties to even, and returns the float nearest to that
    decimal; infinities, nan and zeros are returned as they are.  A finite
    [x = m * 2^e] with [e >= -6] is at least [2^46] in magnitude: floats are
    there more than 0.01 apart and [x] is its own rounding.  Below that,
    [n] = the rounding of [100 * |x|] is an integer under [2^53], exact as a
    float, and the correctly rounded quotient [n / 100] is the float nearest
    to the decimal. *)
Definition py_round2 (x : float) : float :=
  match Prim2SF x with
  | S754_finite s m (Zneg p) =>
      if 6 <? Zpos p then
        let n := round_half_even_div (100 * Zpos m) (2 ^ Zpos p) in
        let q := (of_uint63 (Uint63.of_Z n) / 100)%float in
        if s then (- q)%float else q
      else x
  | _ => x
  end.

(** An [int] used where a float is expected ([int / 1e9]): the nearest
    float, ties to even; CPython raises [OverflowError] when the integer is
    too large for a float ([None] here). *)
Definition float_of_int (z : Z) : option float :=
  match binary_normalize prec emax z 0 false with
  | S754_infinity _ => None
  | sf => Some (SF2Prim sf)
  end.

(** Floats that do not compare below zero: zeros, positive numbers, positive
    infinity, and nan (every comparison with nan is false). *)
Definition not_negative (x : float) : Prop := (x <? 0)%float = false.

(** The same on the specification side of a float. *)
Definition sf_nn (x : spec_float) : bool :=
  match x with
  | S754_infinity s | S754_finite s _ _ => negb s
  | _ => true
  end.

(** ** Python strings: the memo [user_<id>]

    A Python [str] is a sequence of code points; a [string] here holds its
    UTF-8 encoding.  The five characters of [user_] are single bytes that
    occur inside no longer encoding, so [startswith] and [replace] find
    them in the bytes exactly where they stand in the text. *)

(** [comment.replace("user_", "")]: every occurrence, left to right. *)
Fixpoint remove_user_ (s : string) : string :=
  match s with
  | String "u" (String "s" (String "e" (String "r" (String "_" rest)))) =>
      remove_user_ rest
  | String c s' => String c (remove_user_ s')
  | EmptyString => EmptyString
  end.

Definition byte_of (c : ascii) : Z := Z.of_N (N_of_ascii c).

(** The six payload bits of a continuation byte [10xxxxxx]. *)
Definition continuation (c : ascii) : option Z :=
  let n := byte_of c in
  if (128 <=? n) && (n <? 192) then Some (n - 128) else None.

(** The code points of a UTF-8 text, one to four bytes each, shortest
    encoding only.  [None]: the bytes encode no text. *)
Fixpoint utf8_decode (s : string) : option (list Z) :=
  match s with
  | EmptyString => Some []
  | String c0 s1 =>
      let b0 := byte_of c0 in
      if b0 <? 128 then cons b0 <$> utf8_decode s1
      else if b0 <? 192 then None
      else if b0 <? 224 then
        match s1 with
        | String c1 s2 =>
            match continuation c1 with
            | Some x1 =>
                let cp := (b0 - 192) * 64 + x1 in
                if 128 <=? cp then cons cp <$> utf8_decode s2 else None
            | None => None
            end
        | _ => None
        end
      else if b0 <? 240 then
        match s1 with
        | String c1 (String c2 s3) =>
            match continuation c1, continuation c2 with
            | Some x1, Some x2 =>
                let cp := ((b0 - 224) * 64 + x1) * 64 + x2 in
                if 2048 <=? cp then cons cp <$> utf8_decode s3 else None
            | _, _ => None
            end
        | _ => None
        end
      else
        match s1 with
        | String c1 (String c2 (String c3 s4)) =>
            match continuation c1, continuation c2, continuation c3 with
            | Some x1, Some x2, Some x3 =>
                let cp := (((b0 - 240) * 64 + x1) * 64 + x2) * 64 + x3 in
                if (65536 <=? cp) && (cp <=? 1114111) then cons cp <$> utf8_decode s4
                else None
            | _, _, _ => None
            end
        | _ => None
        end
  end.

(** The characters outside ASCII that [int()] takes for whitespace
    ([Py_UNICODE_ISSPACE]). *)
Definition unicode_space (c : Z) : bool :=
  (c =? 0x85) || (c =? 0xA0) || (c =? 0x1680)
  || ((0x2000 <=? c) && (c <=? 0x200A))
  || (c =? 0x2028) || (c =? 0x2029) || (c =? 0x202F) || (c =? 0x205F)
  || (c =? 0x3000).

(** The decimal digits of Unicode 14.0, the character database of
    CPython 3.11: 66 runs of ten code points with the values 0 to 9, given
    by the code point of their zero. *)
Definition decimal_zeros : list Z :=
  [0x30; 0x660; 0x6F0; 0x7C0; 0x966; 0x9E6; 0xA66; 0xAE6; 0xB66; 0xBE6; 0xC66;
   0xCE6; 0xD66; 0xDE6; 0xE50; 0xED0; 0xF20; 0x1040; 0x1090; 0x17E0; 0x1810;
   0x1946; 0x19D0; 0x1A80; 0x1A90; 0x1B50; 0x1BB0; 0x1C40; 0x1C50; 0xA620;
   0xA8D0; 0xA900; 0xA9D0; 0xA9F0; 0xAA50; 0xABF0; 0xFF10; 0x104A0; 0x10D30;
   0x11066; 0x110F0; 0x11136; 0x111D0; 0x112F0; 0x11450; 0x114D0; 0x11650;
   0x116C0; 0x11730; 0x118E0; 0x11950; 0x11C50; 0x11D50; 0x11DA0; 0x16A60;
   0x16AC0; 0x16B50; 0x1D7CE; 0x1D7D8; 0x1D7E2; 0x1D7EC; 0x1D7F6; 0x1E140;
   0x1E2F0; 0x1E950; 0x1FBF0].

Definition unicode_decimal (c : Z) : option Z :=
  (λ z, c - z) <$> List.find (λ z, (z <=? c) && (c <? z + 10)) decimal_zeros.

Definition digit_char (d : Z) : ascii := ascii_of_N (Z.to_N (48 + d)).

(** [int()] first rewrites its argument to ASCII: an ASCII character
    stays, whitespace outside ASCII becomes a space, a decimal digit
    becomes the ASCII digit of its value.  Any other character makes the
    literal invalid ([None]). *)
Fixpoint to_ascii (cs : list Z) : option string :=
  match cs with
  | [] => Some EmptyString
  | c :: cs' =>
      if c <? 128 then String (ascii_of_N (Z.to_N c)) <$> to_ascii cs'
      else if unicode_space c then String " " <$> to_ascii cs'
      else
        match unicode_decimal c with
        | Some d => String (digit_char d) <$> to_ascii cs'
        | None => None
        end
  end.

(** Whitespace in the ASCII literal ([Py_ISSPACE]): tab, line feed, vertical
    tab, form feed, carriage return and space. *)
Definition is_space (c : ascii) : bool :=
  let n := byte_of c in
  ((9 <=? n) && (n <=? 13)) || (n =? 32).

Definition digit_of (c : ascii) : option Z :=
  let n := byte_of c in
  if (48 <=? n) && (n <=? 57) then Some (n - 48) else None.

Fixpoint lstrip (s : string) : string :=
  match s with
  | String c s' => if is_space c then lstrip s' else s
  | EmptyString => EmptyString
  end.

Fixpoint rstrip (s : string) : string :=
  match s with
  | String c s' =>
      match rstrip s' with
      | EmptyString => if is_space c then EmptyString else String c EmptyString
      | t => String c t
      end
  | EmptyString => EmptyString
  end.

(** Decimal digits, with single underscores allowed between digits. *)
Fixpoint parse_digits (acc : Z) (after_digit : bool) (s : string) : option Z :=
  match s with
  | EmptyString => if after_digit then Some acc else None
  | String c s' =>
      match digit_of c with
      | Some d => parse_digits (10 * acc + d) true s'
      | None =>
          if Ascii.eqb c "_" && after_digit then parse_digits acc false s'
          else None
      end
  end.

Fixpoint count_digits (s : string) : Z :=
  match s with
  | EmptyString => 0
  | String c s' =>
      match digit_of c with
      | Some _ => 1 + count_digits s'
      | None => count_digits s'
      end
  end.

(** The default of [sys.get_int_max_str_digits()]: a literal with more
    digits is refused.  Underscores, the sign and the surrounding
    whitespace do not count. *)
Definition max_str_digits : Z := 4300.

Definition parse_literal (t : string) : option Z :=
  if count_digits t <=? max_str_digits then parse_digits 0 false t else None.

(** [int(s)] in base 10: the text rewritten to ASCII, then surrounding
    whitespace, an optional sign and the digits.  [None] stands for
    [ValueError]. *)
Definition py_int (s : string) : option Z :=
  match utf8_decode s ≫= to_ascii with
  | None => None
  | Some a =>
      match lstrip (rstrip a) with
      | String "-" t => Z.opp <$> parse_literal t
      | String "+" t => parse_literal t
      | t => parse_literal t
      end
  end.

(** ** Data model *)

(** One entry of the global [bets] dict:
    [{"amount": bet.amount, "auto_cashout": None}]. *)
Record BetEntry := mkBet { amount : float; auto_cashout : option float }.

(** A transaction of the payment provider's JSON answer, as far as
    [check_transactions] reads it: [tx["hash"]], [tx.get("in_msg")], and in
    the message [comment] and [value]. *)
Record InMsg := mkInMsg { comment : option string; value : option Z }.
Record Tx := mkTx { hash : string; in_msg : option InMsg }.

(** The messages [round_loop] hands to [broadcast]. *)
Inductive Event :=
| EvWaiting
| EvStart (crash_at : float)
| EvUpdate (multiplier : float)
| EvCrash (crash_at : float).

(** The [await] at which [round_loop] is suspended. *)
Inductive Loc :=
| LStart          (* task created, loop not entered yet *)
| LWaitingBcast   (* await broadcast({"event": "waiting"}) *)
| LBetSleep       (* await asyncio.sleep(3) *)
| LStartBcast     (* await broadcast({"event": "start"}) *)
| LTickSleep      (* await asyncio.sleep(0.1) *)
| LUpdateBcast    (* await broadcast({"event": "update"}) *)
| LCrashBcast     (* await broadcast({"event": "crash"}) *)
| LPauseSleep.    (* await asyncio.sleep(2) *)

(** The whole server state: the two tables, the globals of the module, and
    the control point and output of [round_loop]. *)
Record State := mkState {
  users : gmap Z float;            (* table users: user_id -> balance *)
  processed : gmap string Z;       (* table processed_transactions: tx_hash -> user_id *)
  bets : gmap Z BetEntry;
  current_multiplier : float;
  crash_multiplier : float;
  round_active : bool;
  accepting_bets : bool;
  loc : Loc;
  sent : list Event                (* broadcast messages, newest first *)
}.

Definition set_users (f : gmap Z float) (s : State) : State :=
  mkState f (processed s) (bets s) (current_multiplier s) (crash_multiplier s)
    (round_active s) (accepting_bets s) (loc s) (sent s).

Definition set_processed (p : gmap string Z) (s : State) : State :=
  mkState (users s) p (bets s) (current_multiplier s) (crash_multiplier s)
    (round_active s) (accepting_bets s) (loc s) (sent s).

Definition set_bets (b : gmap Z BetEntry) (s : State) : State :=
  mkState (users s) (processed s) b (current_multiplier s) (crash_multiplier s)
    (round_active s) (accepting_bets s) (loc s) (sent s).

(** The state at start-up with a fresh database. *)
Definition init_state : State :=
  mkState ∅ ∅ ∅ 1%float 2%float false false LStart [].

(** The round phase, read off the two flags the loop maintains:
    [accepting_bets] is set exactly during the betting window and
    [round_active] exactly during the flight. *)
Inductive Phase := Waiting | Flight | Crashed.

Definition phase (s : State) : Phase :=
  if accepting_bets s then Waiting
  else if round_active s then Flight
  else Crashed.

(** ** Request handlers

    A handler is first modelled as one step on the state, from the request
    to the answer, served without another coroutine running in between;
    [place_bet] and [cashout] are split at their [await] further below (see
    [Move]).  The coroutine [round_loop] is split at each of its [await]s
    (see [engine_step]), so requests can fall between any two of its
    stretches.

    The handlers are written for a [user_id] the database can bind (see
    [storable]); [step] applies them to those only. *)

(** The four error answers, named as the specification names them, with the
    text the source sends:
    - [BettingClosed]: "Қазір ставка қабылданбайды", bets are not accepted
      now (line 84)
    - [InsufficientFunds]: "Жеткілікті баланс жоқ", not enough balance
      (line 90)
    - [UserNotFound]: "Пайдаланушы табылмады", user not found (line 103)
    - [NoActiveBet]: "Ставка табылмады", bet not found (line 109) *)
Inductive Error := BettingClosed | InsufficientFunds | UserNotFound | NoActiveBet.

(** The answers of the writing handlers. *)
Inductive Response :=
| ToppedUp                  (* {"message": "Баланс толықтырылды"} *)
| BetAccepted               (* {"message": "Ставка қабылданды"} *)
| CashedOut (win : float)   (* {"message": f"Кэшаут сәтті! Ұтыс: {round(win, 2)}"} *)
| Checked                   (* {"message": "Төлемдер тексерілді"} *)
| Raised                    (* an exception left the handler *)
| Rejected (e : Error).     (* {"error": ...} *)

(** SQLite binds integers of 64 bits: a statement with another [user_id]
    raises [OverflowError] before it reads or writes a row. *)
Definition storable (user_id : Z) : bool :=
  (- 2 ^ 63 <=? user_id) && (user_id <? 2 ^ 63).

(** [get_balance]: the value sent under "balance", the stored balance
    rounded for display or 0.0 for an unknown user.  It writes nothing. *)
Definition get_balance (user_id : Z) (s : State) : float :=
  match users s !! user_id with
  | Some b => py_round2 b
  | None => 0%float
  end.

(** The row update shared by [topup_balance] and [check_transactions]:
    [user.balance += amount], or a new row with that balance. *)
Definition credit (user_id : Z) (a : float) (f : gmap Z float) : gmap Z float :=
  match f !! user_id with
  | Some b => <[user_id := (b + a)%float]> f
  | None => <[user_id := a]> f
  end.

Definition topup_balance (user_id : Z) (a : float) (s : State) : Response * State :=
  (ToppedUp, set_users (credit user_id a (users s)) s).

Definition place_bet (user_id : Z) (a : float) (s : State) : Response * State :=
  if negb (accepting_bets s) then (Rejected BettingClosed, s)
  else
    match users s !! user_id with
    | None => (Rejected InsufficientFunds, s)
    | Some b =>
        if (b <? a)%float then (Rejected InsufficientFunds, s)
        else
          (BetAccepted,
           set_bets (<[user_id := mkBet a None]> (bets s))
             (set_users (<[user_id := (b - a)%float]> (users s)) s))
    end.

Definition cashout (user_id : Z) (s : State) : Response * State :=
  match bets s !! user_id with
  | None => (Rejected NoActiveBet, s)
  | Some bet =>
      match users s !! user_id with
      | None => (Rejected UserNotFound, s)
      | Some b =>
          let win := (amount bet * current_multiplier s)%float in
          (CashedOut (py_round2 win),
           set_bets (delete user_id (bets s))
             (set_users (<[user_id := (b + win)%float]> (users s)) s))
      end
  end.

(** ** Reconciliation with the payment provider *)

(** Lines 126-137: the user a transaction's memo names, if any.  A missing
    message, a missing or empty comment, a comment not starting with
    [user_] and a suffix [int()] rejects are all skipped. *)
Definition memo_user (tx : Tx) : option Z :=
  match in_msg tx with
  | None => None
  | Some msg =>
      match comment msg with
      | None => None
      | Some EmptyString => None
      | Some c =>
          if String.prefix "user_" c then py_int (remove_user_ c) else None
      end
  end.

(** Line 139: [int(msg.get("value", 0)) / 1e9], nanoTON to TON.  [None]
    when the conversion to float overflows. *)
Definition tx_amount (msg : InMsg) : option float :=
  match float_of_int (default 0 (value msg)) with
  | Some v => Some (v / 1e9)%float
  | None => None
  end.

Inductive TxOutcome := TxSkipped | TxApplied | TxRaised.

(** One iteration of the loop of [check_transactions] (lines 124-158):
    the memo (lines 126-137), the amount (line 139), the lookup of the hash
    (lines 142-145), then the SELECT of the user's row (line 148) and the
    credit with the hash stored (lines 150-158). *)
Definition process_tx (tx : Tx) (s : State) : TxOutcome * State :=
  match memo_user tx, in_msg tx with
  | Some user_id, Some msg =>
      match tx_amount msg with
      | None => (TxRaised, s)
      | Some a =>
          match processed s !! hash tx with
          | Some _ => (TxSkipped, s)
          | None =>
              if storable user_id then
                (TxApplied,
                 set_processed (<[hash tx := user_id]> (processed s))
                   (set_users (credit user_id a (users s)) s))
              else (TxRaised, s)
          end
      end
  | _, _ => (TxSkipped, s)
  end.

(** [check_transactions] on the provider's answer [txs].  Every applied
    transaction is committed at once, so an exception keeps what was
    applied before it. *)
Fixpoint check_transactions (txs : list Tx) (s : State) : Response * State :=
  match txs with
  | [] => (Checked, s)
  | tx :: rest =>
      match process_tx tx s with
      | (TxRaised, s') => (Raised, s')
      | (_, s') => check_transactions rest s'
      end
  end.


(** What a transaction is to [check_transactions], whatever the state:
    skipped for its memo, raising on its value, or a payment to a user. *)
Inductive TxKind := Unreadable | Overflowing | Payment (u : Z) (a : float).

Definition tx_kind (tx : Tx) : TxKind :=
  match memo_user tx, in_msg tx with
  | Some u, Some msg =>
      match tx_amount msg with
      | Some a => Payment u a
      | None => Overflowing
      end
  | _, _ => Unreadable
  end.

(** ** The round engine *)

(** The test of [while current_multiplier < crash_multiplier]; when it
    fails the loop is left: [round_active = False] and the crash message
    is handed to [broadcast]. *)
Definition loop_test (s : State) : State :=
  if (current_multiplier s <? crash_multiplier s)%float then
    mkState (users s) (processed s) (bets s) (current_multiplier s)
      (crash_multiplier s) (round_active s) (accepting_bets s) LTickSleep (sent s)
  else
    mkState (users s) (processed s) (bets s) (current_multiplier s)
      (crash_multiplier s) false (accepting_bets s) LCrashBcast
      (EvCrash (crash_multiplier s) :: sent s).

(** [round_loop] resumed at the [await] it is suspended at and run to its
    next [await].  [r] is what [random.uniform(1.5, 3.0)] returns if this
    stretch draws it. *)
Definition engine_step (r : float) (s : State) : State :=
  match loc s with
  | LStart | LPauseSleep =>
      mkState (users s) (processed s) (bets s) (current_multiplier s)
        (crash_multiplier s) (round_active s) true LWaitingBcast
        (EvWaiting :: sent s)
  | LWaitingBcast =>
      mkState (users s) (processed s) (bets s) (current_multiplier s)
        (crash_multiplier s) (round_active s) (accepting_bets s) LBetSleep (sent s)
  | LBetSleep =>
      mkState (users s) (processed s) (bets s) 1%float (py_round2 r)
        true false LStartBcast (EvStart (py_round2 r) :: sent s)
  | LStartBcast | LUpdateBcast => loop_test s
  | LTickSleep =>
      let m := py_round2 (current_multiplier s + 0.01)%float in
      mkState (users s) (processed s) (bets s) m (crash_multiplier s)
        (round_active s) (accepting_bets s) LUpdateBcast (EvUpdate m :: sent s)
  | LCrashBcast =>
      mkState (users s) (processed s) ∅ (current_multiplier s)
        (crash_multiplier s) (round_active s) (accepting_bets s) LPauseSleep (sent s)
  end.

Definition engine_run (n : nat) (r : float) (s : State) : State :=
  Nat.iter n (engine_step r) s.

(** A draw of [random.uniform(1.5, 3.0)]. *)
Definition in_draw_range (r : float) : Prop :=
  (1.5 <=? r)%float = true ∧ (r <=? 3)%float = true.

(** ** Runs of the whole server *)

(** What can happen next: a request arrives and its handler runs, or
    [round_loop] moves to its next [await].  A request with a [user_id]
    that is not [storable] ends at the handler's SELECT with an exception
    (or before it with an error answer) and writes nothing. *)
Inductive Action :=
| GetBalance (user_id : Z)
| TopUp (user_id : Z) (a : float)
| PlaceBet (user_id : Z) (a : float)
| Cashout (user_id : Z)
| Check (txs : list Tx)
| Engine (r : float).

Definition step (a : Action) (s : State) : State :=
  match a with
  | GetBalance _ => s
  | TopUp u x => if storable u then snd (topup_balance u x s) else s
  | PlaceBet u x => if storable u then snd (place_bet u x s) else s
  | Cashout u => if storable u then snd (cashout u s) else s
  | Check txs => snd (check_transactions txs s)
  | Engine r => engine_step r s
  end.

Definition run (l : list Action) (s : State) : State :=
  fold_left (fun s a => step a s) l s.

(** What [round_loop] reads and writes besides the registry. *)
Definition engine_view (s : State) : float * float * bool * bool * Loc * list Event :=
  (current_multiplier s, crash_multiplier s, round_active s, accepting_bets s,
   loc s, sent s).

Definition is_engine (a : Action) : bool :=
  match a with
  | Engine _ => true
  | _ => false
  end.

(** ** The flight loop on the multiplier alone *)

(** Line 191: one tick of the multiplier. *)
Definition tick (m : float) : float := py_round2 (m + 0.01)%float.

(** The number of ticks after which
    [while current_multiplier < crash_multiplier] is left, starting from
    multiplier [m] with crash point [c], looking at most [fuel] ticks ahead.
    [None] also when a tick would lower the multiplier or when the loop is
    left without [c <= m] (a nan). *)
Fixpoint ticks_to_crash (fuel : nat) (c m : float) : option nat :=
  match fuel with
  | O => if (m <? c)%float then None else if (c <=? m)%float then Some O else None
  | S fuel' =>
      if (m <? c)%float then
        if (m <=? tick m)%float then S <$> ticks_to_crash fuel' c (tick m)
        else None
      else if (c <=? m)%float then Some O else None
  end.

(** The float nearest to [n / 100]: what [round(_, 2)] returns for a value
    whose rounding to hundredths is [n]. *)
Definition hundredths (n : Z) : float := (of_uint63 (Uint63.of_Z n) / 100)%float.

(** A crash point [n / 100] is within the draw range and the flight towards
    it from 1.0 ends within 200 ticks. *)
Definition crash_point_ok (n : Z) : bool :=
  (1.5 <=? hundredths n)%float && (hundredths n <=? 3)%float
  && match ticks_to_crash 200 (hundredths n) 1 with
     | Some _ => true
     | None => false
     end.

(** [round_loop] is inside the flight loop, about to test its condition,
    with crash point [c]. *)
Definition in_flight (c : float) (s : State) : Prop :=
  (loc s = LStartBcast ∨ loc s = LUpdateBcast)
  ∧ round_active s = true ∧ accepting_bets s = false ∧ crash_multiplier s = c.

(** One engine step inside the flight, from [t] to [t']: the phase stays
    Flight, the crash point stays [c], and the multiplier does not fall; the
    step after the tick delay sets it to [round(m + 0.01, 2)], the step at
    the loop test keeps it and is only taken while it is below [c]. *)
Definition flight_step_ok (c : float) (t t' : State) : Prop :=
  phase t = Flight ∧ phase t' = Flight ∧ crash_multiplier t' = c
  ∧ (current_multiplier t <=? current_multiplier t')%float = true
  ∧ match loc t with
    | LTickSleep =>
        current_multiplier t' = py_round2 (current_multiplier t + 0.01)%float
    | _ =>
        (current_multiplier t <? c)%float = true
        ∧ current_multiplier t' = current_multiplier t
    end.

(** ** Requests suspended at an await

    [place_bet] and [cashout] wait for the database between their test and
    their write.  [place_bet] tests [accepting_bets] (line 83), awaits the
    SELECT (line 87), and then checks the funds and writes the balance and
    the registry (lines 88-92).  [cashout] tests [user_id in bets]
    (line 98), awaits the SELECT (line 100), and then reads the entry,
    credits the win and deletes the entry (lines 101-106).  While a request
    waits, [round_loop] and other requests run.  Below a request is split
    at that await: [BeginBet] and [BeginCashout] run a handler up to it,
    [Resume] runs the rest with the row the SELECT returned.  The row is an
    input of the move: whatever the database answered, the move is in the
    model.  The commit that ends both handlers changes no global. *)

Inductive Pending := PendingBet (u : Z) (a : float) | PendingCashout (u : Z).

(** Lines 88-94, with [row] for [result.scalar_one_or_none()]. *)
Definition place_bet_resume (u : Z) (a : float) (row : option float) (s : State)
    : Response * State :=
  match row with
  | None => (Rejected InsufficientFunds, s)
  | Some b =>
      if (b <? a)%float then (Rejected InsufficientFunds, s)
      else
        (BetAccepted,
         set_bets (<[u := mkBet a None]> (bets s))
           (set_users (<[u := (b - a)%float]> (users s)) s))
  end.

(** Lines 101-108.  When the entry has left the registry since the test of
    line 98, [bets[data.user_id]] raises [KeyError]. *)
Definition cashout_resume (u : Z) (row : option float) (s : State)
    : Response * State :=
  match row with
  | None => (Rejected UserNotFound, s)
  | Some b =>
      match bets s !! u with
      | None => (Raised, s)
      | Some bet =>
          let win := (amount bet * current_multiplier s)%float in
          (CashedOut (py_round2 win),
           set_bets (delete u (bets s))
             (set_users (<[u := (b + win)%float]> (users s)) s))
      end
  end.

Inductive Move :=
| Whole (a : Action)                     (* a step of [step]: nothing runs in between *)
| BeginBet (u : Z) (a : float)           (* place_bet up to the await of line 87 *)
| BeginCashout (u : Z)                   (* cashout up to the await of line 100 *)
| Resume (i : nat) (row : option float). (* the i-th waiting request goes on *)

(** The answer of a bet or a cashout served whole. *)
Definition answer (a : Action) (s : State) : option (Z * Response) :=
  match a with
  | PlaceBet u x =>
      Some (u, if storable u then fst (place_bet u x s)
               else if accepting_bets s then Raised else Rejected BettingClosed)
  | Cashout u =>
      Some (u, if storable u then fst (cashout u s)
               else match bets s !! u with
                    | Some _ => Raised
                    | None => Rejected NoActiveBet
                    end)
  | _ => None
  end.

(** One move on the state and the list of waiting requests, with the
    answer and the user of a bet or cashout request that ends in it. *)
Definition move (m : Move) (s : State) (ps : list Pending)
    : option (Z * Response) * State * list Pending :=
  match m with
  | Whole a => (answer a s, step a s, ps)
  | BeginBet u a =>
      if accepting_bets s then
        if storable u then (None, s, ps ++ [PendingBet u a])
        else (Some (u, Raised), s, ps)
      else (Some (u, Rejected BettingClosed), s, ps)
  | BeginCashout u =>
      match bets s !! u with
      | Some _ =>
          if storable u then (None, s, ps ++ [PendingCashout u])
          else (Some (u, Raised), s, ps)
      | None => (Some (u, Rejected NoActiveBet), s, ps)
      end
  | Resume i row =>
      match ps !! i with
      | Some (PendingBet u a) =>
          (Some (u, fst (place_bet_resume u a row s)),
           snd (place_bet_resume u a row s), delete i ps)
      | Some (PendingCashout u) =>
          (Some (u, fst (cashout_resume u row s)),
           snd (cashout_resume u row s), delete i ps)
      | None => (None, s, ps)
      end
  end.

(** ** History of settlements

    The registry does not say which accepted bet an entry stems from.  To
    speak about single bets, a sequence of moves is replayed with a history
    beside it, which files what the server is seen to do:
    - every answer "bet accepted" hands the next ticket number to the bet,
      and [ticket_of] keeps the ticket of each user's latest accepted bet;
      the ticket the user's entry in the registry held until then is filed
      under [replaced];
    - every answer "cashout successful" files the user's ticket under
      [paid] (a payout to a user who never had a bet is filed under the
      number of a ticket not handed out);
    - every entry that is in the registry before a step of [round_loop]
      and not after it has its ticket filed under [forfeited].
    The history only observes: no move reads it. *)
Record Hist := mkHist {
  next_ticket : nat;
  ticket_of : gmap Z nat;
  paid : list nat;
  forfeited : list nat;
  replaced : list nat
}.

Definition no_hist : Hist := mkHist 0 ∅ [] [] [].

(** The tickets of the entries of the registry. *)
Definition live (s : State) (h : Hist) : gmap Z nat :=
  filter (λ p, is_Some (bets s !! p.1)) (ticket_of h).

Definition live_tickets (s : State) (h : Hist) : list nat :=
  (map_to_list (live s h)).*2.

(** The tickets of the entries of [s] that [s'] does not have. *)
Definition cleared_tickets (s s' : State) (h : Hist) : list nat :=
  (map_to_list (filter (λ p, ¬ is_Some (bets s' !! p.1)) (live s h))).*2.

Definition file_answer (s : State) (ans : option (Z * Response)) (h : Hist) : Hist :=
  match ans with
  | Some (u, BetAccepted) =>
      mkHist (S (next_ticket h)) (<[u := next_ticket h]> (ticket_of h))
        (paid h) (forfeited h)
        (match live s h !! u with
         | Some t => t :: replaced h
         | None => replaced h
         end)
  | Some (u, CashedOut _) =>
      mkHist (next_ticket h) (ticket_of h)
        (default (next_ticket h) (ticket_of h !! u) :: paid h)
        (forfeited h) (replaced h)
  | _ => h
  end.

Definition file_cleared (s s' : State) (h : Hist) : Hist :=
  mkHist (next_ticket h) (ticket_of h) (paid h)
    (cleared_tickets s s' h ++ forfeited h) (replaced h).

Definition hist_move (m : Move) (s : State) (ps : list Pending) (h : Hist) : Hist :=
  match m with
  | Whole (Engine _) => file_cleared s (move m s ps).1.2 h
  | _ => file_answer s (move m s ps).1.1 h
  end.

(** A sequence of moves, with the history beside it. *)
Fixpoint play (ms : list Move) (s : State) (ps : list Pending) (h : Hist)
    : State * list Pending * Hist :=
  match ms with
  | [] => (s, ps, h)
  | m :: ms' => play ms' (move m s ps).1.2 (move m s ps).2 (hist_move m s ps h)
  end.

(** Every ticket handed out so far, by where it is filed. *)
Definition all_tickets (s : State) (h : Hist) : list nat :=
  live_tickets s h ++ replaced h ++ paid h ++ forfeited h.

(** The history fits the state: every entry of the registry has a ticket,
    and the tickets handed out so far are each filed in exactly one
    place. *)
Definition hist_ok (s : State) (h : Hist) : Prop :=
  dom (bets s) ⊆ dom (ticket_of h)
  ∧ NoDup (all_tickets s h)
  ∧ ∀ t, t ∈ all_tickets s h ↔ (t < next_ticket h)%nat.

(** Every ticket handed out and not replaced is paid or forfeited. *)
Definition all_settled (h : Hist) : Prop :=
  ∀ t, (t < next_ticket h)%nat → t ∉ replaced h → t ∈ paid h ++ forfeited h.

(** ** The deltas a run applies to one balance *)

Inductive Delta := Credited (a : float) | Debited (a : float).

(** A row's balance after a delta; [None] is "no row".  A debit is only
    ever applied to an existing row. *)
Definition apply_delta (b : option float) (d : Delta) : option float :=
  match d, b with
  | Credited a, Some b => Some (b + a)%float
  | Credited a, None => Some a
  | Debited a, Some b => Some (b - a)%float
  | Debited a, None => None
  end.

Fixpoint check_deltas (u : Z) (txs : list Tx) (s : State) : list Delta :=
  match txs with
  | [] => []
  | tx :: rest =>
      match process_tx tx s, memo_user tx, in_msg tx ≫= tx_amount with
      | (TxRaised, _), _, _ => []
      | (TxApplied, s'), Some u', Some a =>
          (if decide (u' = u) then [Credited a] else []) ++ check_deltas u rest s'
      | (_, s'), _, _ => check_deltas u rest s'
      end
  end.

(** The deltas action [a], run in state [s], applies to the balance of
    user [u]: the amount of a top-up or of an applied payment, the stake of
    an accepted bet, the win of a cashout.  A request that is rejected or
    raises applies nothing. *)
Definition deltas_of (u : Z) (a : Action) (s : State) : list Delta :=
  match a with
  | TopUp u' x => if decide (u' = u) then if storable u' then [Credited x] else [] else []
  | PlaceBet u' x =>
      match answer a s with
      | Some (_, BetAccepted) => if decide (u' = u) then [Debited x] else []
      | _ => []
      end
  | Cashout u' =>
      match answer a s, bets s !! u' with
      | Some (_, CashedOut _), Some bet =>
          if decide (u' = u)
          then [Credited (amount bet * current_multiplier s)%float]
          else []
      | _, _ => []
      end
  | Check txs => check_deltas u txs s
  | GetBalance _ | Engine _ => []
  end.

Fixpoint run_deltas (u : Z) (l : list Action) (s : State) : list Delta :=
  match l with
  | [] => []
  | a :: l' => deltas_of u a s ++ run_deltas u l' (step a s)
  end.

(** A payment value a provider sends: not negative. *)
Definition tx_nonneg (tx : Tx) : Prop :=
  ∀ msg, in_msg tx = Some msg → 0 ≤ default 0 (value msg).

(** ** Scenarios

    Runs from start-up used as concrete inputs below.  A round with draw
    [r] takes three engine steps to the start of the flight, two per tick,
    one to leave the loop, one to clear the registry and one to reopen the
    betting window. *)

(** User 1 tops up 100 and stakes 20 in the first betting window; the
    flight has risen to 1.53 (53 ticks) towards a crash point of 2.0. *)
Definition scenario_flight : State :=
  run ([Engine 2; TopUp 1 100; PlaceBet 1 20] ++ repeat (Engine 2) 108) init_state.

(** A first round crashed at 1.5 and the next betting window is open; in
    it user 1 tops up 100 and stakes 20. *)
Definition scenario_window : State :=
  run (repeat (Engine 1.5) 107 ++ [TopUp 1 100; PlaceBet 1 20]) init_state.

(** User 1 staked 20 in the first window; the round has just crashed at
    1.5 and the crash message is being broadcast. *)
Definition scenario_crash : State :=
  run ([Engine 1.5; TopUp 1 100; PlaceBet 1 20] ++ repeat (Engine 1.5) 103) init_state.

(** The first betting window with user 1 holding 100. *)
Definition scenario_open : State :=
  run [Engine 2; TopUp 1 100] init_state.

(** User 1 stakes 20, stakes 30 again in the same window, cashes out at
    1.04 during the flight, and the round crashes at 2.0. *)
Definition scenario_restake : list Action :=
  [Engine 2; TopUp 1 100; PlaceBet 1 20; PlaceBet 1 30]
  ++ repeat (Engine 2) 10 ++ [Cashout 1] ++ repeat (Engine 2) 196.

(** The payment of the specification's scenario: transaction [tx123] with
    memo [user_42] and value 5_000_000_000 nanoTON. *)
Definition scenario_tx : Tx :=
  mkTx "tx123" (Some (mkInMsg (Some "user_42"%string) (Some 5000000000))).

(** Amounts that are no binary fractions: user 1 tops up 0.1 and 0.2,
    stakes 0.1, and the flight has risen to 1.07 (7 ticks). *)
Definition scenario_cents : State :=
  run ([Engine 2; TopUp 1 0.1; TopUp 1 0.2; PlaceBet 1 0.1] ++ repeat (Engine 2) 16)
    init_state.

(** Requests that overlap.  In the first window user 1 stakes 20, and a
    bet of 5 of user 2 passes the test of line 83 and waits for the
    database.  In the flight, at 1.05, two cashout requests of user 1 pass
    the test of line 98 before either goes on; then both go on; then, at
    1.1, the bet of user 2 goes on and is accepted; the round crashes at
    2.0 and the registry is cleared. *)
Definition scenario_overlap : list Move :=
  [Whole (Engine 2); Whole (TopUp 1 100); Whole (TopUp 2 50);
   Whole (PlaceBet 1 20); BeginBet 2 5]
  ++ repeat (Whole (Engine 2)) 12
  ++ [BeginCashout 1; BeginCashout 1; Resume 1 (Some 80%float); Resume 1 (Some 80%float)]
  ++ repeat (Whole (Engine 2)) 10
  ++ [Resume 0 (Some 50%float)]
  ++ repeat (Whole (Engine 2)) 184.

(** ** Invariants and closed forms of the engine *)

(** One tick from [j / 100] gives [(j + 1) / 100]. *)
Definition tick_exact (j : Z) : bool :=
  PrimFloat.Leibniz.eqb (tick (hundredths j)) (hundredths (j + 1)).

(** The floats [j / 100] and [n / 100] compare as [j] and [n] do. *)
Definition order_exact (j n : Z) : bool :=
  Bool.eqb (hundredths j <? hundredths n)%float (j <? n)
  && Bool.eqb (hundredths j <=? hundredths n)%float (j <=? n).

(** The control points of the betting window and of the flight. *)
Definition window_loc (l : Loc) : bool :=
  match l with
  | LWaitingBcast | LBetSleep => true
  | _ => false
  end.

Definition flight_loc (l : Loc) : bool :=
  match l with
  | LStartBcast | LTickSleep | LUpdateBcast => true
  | _ => false
  end.

(** What holds of the flags wherever [round_loop] is suspended. *)
Definition control_inv (s : State) : Prop :=
  accepting_bets s = window_loc (loc s)
  ∧ round_active s = flight_loc (loc s).

(** The multipliers are exact hundredths, the current one between 1.00 and
    the crash point, and strictly below it when the loop is about to
    tick. *)
Definition multiplier_inv (s : State) : Prop :=
  ∃ j n : Z,
    100 ≤ j ≤ n ∧ n ≤ 300
    ∧ current_multiplier s = hundredths j
    ∧ crash_multiplier s = hundredths n
    ∧ (loc s = LTickSleep → j < n).

(** Every draw an engine step of the run may use is one of
    [random.uniform(1.5, 3.0)]. *)
Definition draw_ok (a : Action) : Prop :=
  match a with
  | Engine r => in_draw_range r
  | _ => True
  end.

(** ** Amounts and balances

    SQLite keeps a float as it is, except that it stores nan as NULL and
    -0.0 as 0.0; a NULL balance makes every later request of that user
    raise [TypeError].  The classes below leave these out. *)

(** Zero or positive, possibly infinite: no nan, nothing negative, no
    negative zero. *)
Definition nonneg_number (x : float) : Prop :=
  x = 0%float ∨ (0 <? x)%float = true.

(** Zero or positive and finite. *)
Definition nonneg_finite (x : float) : Prop :=
  x = 0%float ∨ ((0 <? x)%float = true ∧ (x <? infinity)%float = true).

(** The same on the specification side of a float. *)
Definition sf_number (x : spec_float) : bool :=
  match x with
  | S754_zero s | S754_infinity s | S754_finite s _ _ => negb s
  | S754_nan => false
  end.

Definition sf_finite (x : spec_float) : bool :=
  match x with
  | S754_zero s | S754_finite s _ _ => negb s
  | _ => false
  end.

(** What a well-behaved client and provider send and the generator draws:
    top-up amounts and stakes that are finite and not negative, payment
    values that are not negative, draws from [1.5, 3.0]. *)
Definition sound_action (a : Action) : Prop :=
  match a with
  | TopUp _ x | PlaceBet _ x => nonneg_finite x
  | Check txs => Forall tx_nonneg txs
  | Engine r => in_draw_range r
  | GetBalance _ | Cashout _ => True
  end.

(** A ledger without a nan, a negative balance or an infinite stake, with
    the multipliers as [round_loop] leaves them. *)
Definition sound_ledger (s : State) : Prop :=
  map_Forall (λ _ b, nonneg_number b) (users s)
  ∧ map_Forall (λ _ e, nonneg_finite (amount e)) (bets s)
  ∧ multiplier_inv s.

(** The multipliers [j / 100] are finite and positive. *)
Definition hundredths_finite (j : Z) : bool :=
  match Prim2SF (hundredths j) with
  | S754_finite false _ _ => true
  | _ => false
  end.

(** The update messages of the ticks from [j / 100] on, oldest first. *)
Definition updates (j : Z) (k : nat) : list Event :=
  (λ i, EvUpdate (hundredths i)) <$> seqZ (j + 1) (Z.of_nat k).

(** ** Accounts and payments *)

(** The actions that can add to a balance table: a top-up and a
    reconciliation pass. *)
Definition is_credit (a : Action) : bool :=
  match a with
  | TopUp _ _ | Check _ => true
  | _ => false
  end.

(** The hashes a pass over [txs] can store: those of its payments. *)
Definition is_payment (tx : Tx) : bool :=
  match tx_kind tx with
  | Payment _ _ => true
  | _ => false
  end.

Definition payment_hashes (txs : list Tx) : gset string :=
  list_to_set (hash <$> List.filter is_payment txs).

(** A decimal numeral, most significant digit first, as text and as the
    number it denotes. *)
Definition digits_string (ds : list Z) : string :=
  fold_right (λ d s, String (digit_char d) s) EmptyString ds.

Definition digits_value (ds : list Z) : Z :=
  fold_left (λ acc d, 10 * acc + d) ds 0.

(** A text given by its bytes. *)
Definition of_bytes (bs : list Z) : string :=
  fold_right (λ b s, String (ascii_of_N (Z.to_N b)) s) EmptyString bs.

(** A payment to a user id one above the largest the database binds. *)
Definition scenario_wide_tx : Tx :=
  mkTx "wide" (Some (mkInMsg (Some "user_9223372036854775808"%string) (Some 1000000000))).

(** A payment whose value does not fit a float. *)
Definition scenario_huge_tx : Tx :=
  mkTx "huge" (Some (mkInMsg (Some "user_7"%string) (Some (2 ^ 1024)))).

(** A transfer with a memo that names no user. *)
Definition scenario_plain_tx : Tx :=
  mkTx "plain" (Some (mkInMsg (Some "thanks"%string) (Some 1000000000))).

(** * Proofs *)

(** ** Signs of float operations

    The primitive operations are specified by the functions of [SpecFloat]
    (the axioms of [FloatAxioms]); the sign and the class of a result are
    read off there. *)

(** [not_negative] read on the specification side. *)
Lemma not_negative_sf x : not_negative x ↔ sf_nn (Prim2SF x) = true.
Proof.
  unfold not_negative. rewrite FloatAxioms.ltb_spec.
  change (Prim2SF 0) with (S754_zero false).
  destruct (Prim2SF x) as [s|s| |s m e]; try destruct s; cbn; intuition congruence.
Qed.

(** The two classes of amounts read on the specification side. *)
Lemma nonneg_number_sf x : nonneg_number x ↔ sf_number (Prim2SF x) = true.
Proof.
  unfold nonneg_number. rewrite FloatAxioms.ltb_spec.
  change (Prim2SF 0) with (S754_zero false). split.
  - intros [-> |H]; [reflexivity|].
    destruct (Prim2SF x) as [[]|[]| |[] m e]; cbn in *; congruence.
  - intros H. destruct (Prim2SF x) as [[]|[]| |[] m e] eqn:E; cbn in *; try congruence; auto.
    left. apply Prim2SF_inj. exact E.
Qed.

Lemma nonneg_finite_sf x : nonneg_finite x ↔ sf_finite (Prim2SF x) = true.
Proof.
  unfold nonneg_finite. rewrite !FloatAxioms.ltb_spec.
  change (Prim2SF 0) with (S754_zero false).
  change (Prim2SF infinity) with (S754_infinity false). split.
  - intros [-> |[H1 H2]]; [reflexivity|].
    destruct (Prim2SF x) as [[]|[]| |[] m e]; cbn in *; congruence.
  - intros H. destruct (Prim2SF x) as [[]|[]| |[] m e] eqn:E; cbn in *; try congruence; auto.
    left. apply Prim2SF_inj. exact E.
Qed.

Lemma sf_finite_number x : sf_finite x = true → sf_number x = true.
Proof. destruct x as [[]|[]| |[] m e]; cbn; congruence. Qed.

Lemma nonneg_finite_number x : nonneg_finite x → nonneg_number x.
Proof. intros [H|[H _]]; [left|right]; exact H. Qed.

(** Shifting a mantissa right keeps it at or above zero. *)
Lemma shr_1_nonneg mrs : 0 ≤ shr_m mrs → 0 ≤ shr_m (shr_1 mrs).
Proof.
  destruct mrs as [m r s]. cbn [shr_m]. intros H.
  destruct m as [|[p|p|]|p]; cbn; lia.
Qed.

Lemma iter_shr_1_nonneg p : ∀ mrs, 0 ≤ shr_m mrs → 0 ≤ shr_m (SpecFloat.iter_pos shr_1 p mrs).
Proof.
  induction p as [p IH|p IH|]; intros mrs H; cbn [SpecFloat.iter_pos].
  - apply IH, IH, shr_1_nonneg, H.
  - apply IH, IH, H.
  - apply shr_1_nonneg, H.
Qed.

Lemma shr_fexp_nonneg m e l : 0 ≤ m → 0 ≤ shr_m (fst (shr_fexp prec emax m e l)).
Proof.
  intros H. unfold shr_fexp, shr.
  assert (0 ≤ shr_m (shr_record_of_loc m l)) as H0
    by (destruct l as [|[]]; exact H).
  destruct (fexp prec emax (Zdigits2 m + e) - e); cbn [fst]; try exact H0.
  apply iter_shr_1_nonneg, H0.
Qed.

Lemma round_nearest_even_nonneg m l : 0 ≤ m → 0 ≤ round_nearest_even m l.
Proof.
  intros H. unfold round_nearest_even.
  destruct l as [|[]]; try destruct (Z.even m); lia.
Qed.

(** Rounding a mantissa that is not negative, with a positive sign, gives
    zero, a positive number or infinity. *)
Lemma binary_round_aux_number m e l :
  0 ≤ m → sf_number (binary_round_aux prec emax false m e l) = true.
Proof.
  intros H. unfold binary_round_aux.
  pose proof (shr_fexp_nonneg m e l H) as H1.
  destruct (shr_fexp prec emax m e l) as [mrs e']. cbn [fst] in H1.
  pose proof (shr_fexp_nonneg _ e' loc_Exact
                (round_nearest_even_nonneg _ (loc_of_shr_record mrs) H1)) as H2.
  destruct (shr_fexp prec emax _ e' loc_Exact) as [mrs' e'']. cbn [fst] in H2.
  destruct (shr_m mrs'); try reflexivity; [|lia].
  destruct (e'' <=? emax - prec); reflexivity.
Qed.

Lemma binary_round_number m e : sf_number (binary_round prec emax false m e) = true.
Proof.
  unfold binary_round. destruct (shl_align _ _ _). apply binary_round_aux_number. lia.
Qed.

Lemma binary_normalize_number z e :
  0 ≤ z → sf_number (binary_normalize prec emax z e false) = true.
Proof.
  intros Hz. destruct z; try lia; cbn [binary_normalize]; [reflexivity|apply binary_round_number].
Qed.

Lemma SFadd_number x y :
  sf_number x = true → sf_number y = true → sf_number (SFadd prec emax x y) = true.
Proof.
  destruct x as [[]|[]| |[] mx ex], y as [[]|[]| |[] my ey];
    cbn -[binary_normalize shl_align]; try congruence; intros _ _.
  apply binary_normalize_number. lia.
Qed.

Lemma SFmul_number x my ey :
  sf_finite x = true → sf_number (SFmul prec emax x (S754_finite false my ey)) = true.
Proof.
  destruct x as [[]|[]| |[] mx ex]; cbn -[binary_round_aux]; try congruence; intros _.
  apply binary_round_aux_number. lia.
Qed.

Lemma SFdiv_number x my ey :
  sf_number x = true → sf_number (SFdiv prec emax x (S754_finite false my ey)) = true.
Proof.
  destruct x as [[]|[]| |[] mx ex]; cbn -[SFdiv_core_binary binary_round_aux]; try congruence; intros _.
  unfold SFdiv_core_binary.
  set (m' := match _ with Z0 => Z.pos mx | Zpos _ => _ | Zneg _ => 0 end).
  assert (0 ≤ m') as Hm.
  { unfold m'. destruct (_ - _ - _)%Z; try lia. apply Z.shiftl_nonneg. lia. }
  pose proof (Z_div_mod m' (Z.pos my) ltac:(lia)) as Hd.
  destruct (Z.div_eucl m' (Z.pos my)) as [q r]. destruct Hd as [Hd Hr].
  apply binary_round_aux_number. nia.
Qed.

(** A positive number lies between the powers of two around its bit length. *)
Lemma digits2_pos_bounds m :
  2 ^ (Zpos (digits2_pos m) - 1) ≤ Zpos m < 2 ^ Zpos (digits2_pos m).
Proof.
  induction m as [m IH|m IH|]; cbn [digits2_pos].
  - rewrite Pos2Z.inj_succ, Z.pow_succ_r by lia.
    replace (Z.succ (Zpos (digits2_pos m)) - 1) with (Z.succ (Zpos (digits2_pos m) - 1)) by lia.
    rewrite Z.pow_succ_r by lia. lia.
  - rewrite Pos2Z.inj_succ, Z.pow_succ_r by lia.
    replace (Z.succ (Zpos (digits2_pos m)) - 1) with (Z.succ (Zpos (digits2_pos m) - 1)) by lia.
    rewrite Z.pow_succ_r by lia. lia.
  - cbn. lia.
Qed.

(** Shifting a mantissa left by [d] bits multiplies it by [2^d]. *)
Lemma iter_xO_spec d m : Zpos (Pos.iter xO m d) = Zpos m * 2 ^ Zpos d.
Proof.
  revert m. induction d as [|d IH] using Pos.peano_ind; intros m.
  - cbn. lia.
  - rewrite Pos.iter_succ, Pos2Z.inj_succ, Z.pow_succ_r by lia.
    rewrite Pos2Z.inj_xO, IH. lia.
Qed.

(** A valid finite float has a mantissa under [2^53], and a full one when
    its exponent is above the least one. *)
Lemma bounded_mantissa m e :
  bounded prec emax m e = true →
  Zpos m < 2 ^ 53 ∧ (emin < e → 2 ^ 52 ≤ Zpos m).
Proof.
  unfold bounded, canonical_mantissa, fexp. intros H.
  apply andb_prop in H as [H _]. apply Z.eqb_eq in H.
  pose proof (digits2_pos_bounds m) as [Hlo Hhi].
  change prec with 53 in H. change (SpecFloat.emin 53 emax) with emin in H.
  split.
  - assert (Zpos (digits2_pos m) ≤ 53) by lia.
    eapply Z.lt_le_trans; [exact Hhi|]. apply Z.pow_le_mono_r; lia.
  - intros He. assert (Zpos (digits2_pos m) = 53) as E by lia.
    rewrite E in Hlo. exact Hlo.
Qed.

Lemma bounded_emin m e : bounded prec emax m e = true → emin ≤ e.
Proof.
  unfold bounded, canonical_mantissa, fexp. intros H.
  apply andb_prop in H as [H _]. apply Z.eqb_eq in H.
  change (SpecFloat.emin prec emax) with emin in H. lia.
Qed.


(** [x - y] for a finite [y] that is not negative and an [x] not below it.
    The case of two positive finite floats compares the aligned mantissas:
    with equal exponents [mx >= my]; with [ex > ey], [x] is normal and its
    shifted mantissa is at least [2^53 > my]. *)
Lemma SFsub_number x y :
  valid_binary x = true → valid_binary y = true →
  SFltb x y = false → sf_number x = true → sf_finite y = true →
  sf_number (SFsub prec emax x y) = true.
Proof.
  destruct x as [[]|[]| |[] mx ex], y as [[]|[]| |[] my ey];
    cbn -[binary_normalize shl_align Z.sub Z.compare]; try congruence; intros Vx Vy Hlt _ _.
  apply binary_normalize_number.
  unfold SFltb, SFcompare in Hlt.
  pose proof (bounded_mantissa _ _ Vx) as [Hx1 Hx2].
  pose proof (bounded_mantissa _ _ Vy) as [Hy1 Hy2].
  pose proof (bounded_emin _ _ Vy) as Hey.
  unfold shl_align.
  destruct (Z.compare_spec ex ey) as [E|E|E]; try discriminate.
  - subst ey. rewrite Z.min_id, Z.sub_diag. cbn [fst].
    destruct (Pos.compare_cont Eq mx my) eqn:C; try discriminate.
    + apply Pos.compare_eq in C. subst. lia.
    + change (Pos.compare_cont Eq mx my) with (Pos.compare mx my) in C.
      apply Pos.compare_gt_iff in C. lia.
  - rewrite Z.min_r by lia. rewrite Z.sub_diag. cbn [fst].
    destruct (ey - ex) as [|d|d] eqn:D; try lia. cbn [fst].
    rewrite iter_xO_spec.
    assert (2 ^ 52 ≤ Zpos mx) by (apply Hx2; lia).
    assert (2 ≤ 2 ^ Zpos d) by (change 2 with (2 ^ 1) at 1; apply Z.pow_le_mono_r; lia).
    change (2 ^ 53) with (2 ^ 52 * 2) in Hy1. nia.
Qed.

Lemma add_number x y : nonneg_number x → nonneg_number y → nonneg_number (x + y).
Proof. rewrite !nonneg_number_sf, add_spec. apply SFadd_number. Qed.

Lemma sub_number x y :
  (x <? y)%float = false → nonneg_number x → nonneg_finite y → nonneg_number (x - y).
Proof.
  rewrite !nonneg_number_sf, nonneg_finite_sf, sub_spec, FloatAxioms.ltb_spec.
  apply SFsub_number; apply Prim2SF_valid.
Qed.

Lemma mul_number x y my ey :
  Prim2SF y = S754_finite false my ey → nonneg_finite x → nonneg_number (x * y).
Proof.
  intros Hy. rewrite nonneg_number_sf, nonneg_finite_sf, mul_spec, Hy. apply SFmul_number.
Qed.

Lemma div_number x y my ey :
  Prim2SF y = S754_finite false my ey → nonneg_number x → nonneg_number (x / y).
Proof.
  intros Hy. rewrite !nonneg_number_sf, div_spec, Hy. apply SFdiv_number.
Qed.

Lemma of_uint63_number n : nonneg_number (of_uint63 n).
Proof.
  rewrite nonneg_number_sf, of_uint63_spec. apply binary_normalize_number.
  apply Uint63.to_Z_bounded.
Qed.

(** [round(x, 2)] of zero, a positive number or infinity is one again. *)
Lemma py_round2_number x : nonneg_number x → nonneg_number (py_round2 x).
Proof.
  intros H. unfold py_round2.
  destruct (Prim2SF x) as [s|s| |s m e] eqn:E; try exact H.
  destruct e as [|p|p]; try exact H.
  destruct (6 <? Zpos p); try exact H.
  apply nonneg_number_sf in H. rewrite E in H. destruct s; [discriminate|].
  eapply div_number; [reflexivity|apply of_uint63_number].
Qed.

Lemma SFldexp_number x e : sf_number x = true → sf_number (SFldexp prec emax x e) = true.
Proof.
  destruct x as [s|s| |[] m ex]; cbn [SFldexp sf_number negb]; try congruence.
  intros _. apply binary_round_number.
Qed.

Lemma SF2Prim_number x : sf_number x = true → nonneg_number (SF2Prim x).
Proof.
  destruct x as [[]|[]| |[] m e]; cbn [sf_number negb SF2Prim]; try discriminate; intros _.
  - left. reflexivity.
  - right. reflexivity.
  - unfold Z.ldexp. rewrite nonneg_number_sf, ldshiftexp_spec.
    apply SFldexp_number. rewrite of_uint63_spec.
    apply binary_normalize_number, Uint63.to_Z_bounded.
Qed.

Lemma float_of_int_number z v :
  0 ≤ z → float_of_int z = Some v → nonneg_number v.
Proof.
  unfold float_of_int. intros Hz H.
  pose proof (binary_normalize_number z 0 Hz) as Hn.
  destruct (binary_normalize prec emax z 0 false) as [s|s| |s m e] eqn:E;
    try discriminate; injection H as <-; exact (SF2Prim_number _ Hn).
Qed.

Lemma tx_amount_number msg a :
  0 ≤ default 0 (value msg) → tx_amount msg = Some a → nonneg_number a.
Proof.
  unfold tx_amount. intros Hv H.
  destruct (float_of_int (default 0 (value msg))) as [v|] eqn:E; inversion H; subst.
  eapply div_number; [reflexivity|]. eapply float_of_int_number; eauto.
Qed.

(** ** The crash point and the flight towards it *)

(** Rounding a quotient between two integers stays between them. *)
Lemma round_half_even_div_bounds a b lo hi :
  0 < b → lo * b ≤ a ≤ hi * b → lo ≤ round_half_even_div a b ≤ hi.
Proof.
  intros Hb [Hlo Hhi]. unfold round_half_even_div.
  pose proof (Z.div_mod a b ltac:(lia)) as Hdm.
  pose proof (Z.mod_pos_bound a b Hb) as Hm.
  assert (lo ≤ a / b) by (apply Z.div_le_lower_bound; lia).
  assert (a / b ≤ hi) by (apply Z.div_le_upper_bound; lia).
  destruct (Z.compare_spec (2 * (a mod b)) b) as [E|E|E]; [|lia|].
  - destruct (Z.even (a / b)); [lia|]. split; [lia|].
    assert (a / b ≠ hi) by nia. lia.
  - split; [lia|]. assert (a / b ≠ hi) by nia. lia.
Qed.

(** [<=] on positive finite floats, by exponent and then mantissa. *)
Lemma compare_cont_not_gt a b : Pos.compare_cont Eq a b ≠ Gt → Zpos a ≤ Zpos b.
Proof. intros H. apply Pos2Z.pos_le_pos, Pos.compare_le_iff. exact H. Qed.

Lemma SFleb_finite s1 m1 e1 m2 e2 :
  SFleb (S754_finite s1 m1 e1) (S754_finite false m2 e2) = true →
  s1 = true ∨ e1 < e2 ∨ (e1 = e2 ∧ Zpos m1 ≤ Zpos m2).
Proof.
  unfold SFleb, SFcompare. destruct s1; [auto|]. intros H. right.
  destruct (Z.compare_spec e1 e2) as [E|E|E]; [|auto|discriminate].
  right. split; [exact E|]. apply compare_cont_not_gt.
  destruct (Pos.compare_cont Eq m1 m2); congruence.
Qed.

Lemma SFleb_finite_l m1 e1 s2 m2 e2 :
  SFleb (S754_finite false m1 e1) (S754_finite s2 m2 e2) = true →
  s2 = false ∧ (e1 < e2 ∨ (e1 = e2 ∧ Zpos m1 ≤ Zpos m2)).
Proof.
  destruct s2; [discriminate|]. intros H. split; [reflexivity|].
  apply SFleb_finite in H as [H|H]; [discriminate|exact H].
Qed.

(** A draw in [1.5, 3.0] has exponent -52 or -51, so its rounding to two
    decimals is [n / 100] for an integer [n] from 150 to 300. *)
Lemma draw_rounds_to_hundredths r :
  in_draw_range r → ∃ n, 150 ≤ n ≤ 300 ∧ py_round2 r = hundredths n.
Proof.
  intros [Hlo Hhi]. rewrite FloatAxioms.leb_spec in Hlo, Hhi.
  pose proof (Prim2SF_valid r) as V.
  unfold py_round2, hundredths.
  change (Prim2SF 1.5) with (S754_finite false 6755399441055744 (-52)) in Hlo.
  change (Prim2SF 3) with (S754_finite false 6755399441055744 (-51)) in Hhi.
  destruct (Prim2SF r) as [s|s| |s m e]; try (destruct s; discriminate); try discriminate.
  apply SFleb_finite_l in Hlo as [-> Hlo]. apply SFleb_finite in Hhi as [Hhi|Hhi]; [discriminate|].
  cbn [valid_binary] in V.
  pose proof (bounded_mantissa _ _ V) as [Hm1 Hm2].
  assert (e = -52 ∨ e = -51) as [-> | ->] by lia.
  - assert (6755399441055744 ≤ Zpos m) by lia.
    eexists; split; [|reflexivity].
    apply round_half_even_div_bounds; [reflexivity|]. lia.
  - assert (Zpos m ≤ 6755399441055744) by lia.
    assert (2 ^ 52 ≤ Zpos m) by (apply Hm2; reflexivity).
    eexists; split; [|reflexivity].
    apply round_half_even_div_bounds; [reflexivity|]. lia.
Qed.

(** Each of the 151 possible crash points is checked by running the
    flight loop towards it. *)
Lemma crash_points_checked : forallb crash_point_ok (seqZ 150 151) = true.
Proof. vm_compute. reflexivity. Qed.

Lemma crash_point_ok_range n : 150 ≤ n ≤ 300 → crash_point_ok n = true.
Proof.
  intros Hn. pose proof crash_points_checked as H.
  rewrite forallb_forall in H. apply H.
  apply list_elem_of_In, elem_of_seqZ. lia.
Qed.

(** ** Bet placement *)

(** C3: while the round phase is not Waiting, [place_bet] answers
    BettingClosed for every user and amount and returns the state as it
    was: no balance and no registry entry changes. *)
Theorem place_bet_closed (u : Z) (a : float) (s : State) :
  phase s ≠ Waiting → place_bet u a s = (Rejected BettingClosed, s).
Proof.
  unfold phase, place_bet. destruct (accepting_bets s); [congruence|reflexivity].
Qed.

Lemma place_bet_closed_witness :
  phase scenario_flight = Flight
  ∧ place_bet 1 20 scenario_flight = (Rejected BettingClosed, scenario_flight).
Proof.
  assert (phase scenario_flight = Flight) as H by (vm_compute; reflexivity).
  split; [exact H|].
  apply (place_bet_closed 1 20 scenario_flight). rewrite H. discriminate.
Defined.

(** The two rejections of [place_bet] and what it does otherwise. *)
Lemma place_bet_cases (u : Z) (a : float) (s : State) :
  (accepting_bets s = false ∧ place_bet u a s = (Rejected BettingClosed, s))
  ∨ (accepting_bets s = true
     ∧ (users s !! u = None ∨ ∃ b, users s !! u = Some b ∧ (b <? a)%float = true)
     ∧ place_bet u a s = (Rejected InsufficientFunds, s))
  ∨ (accepting_bets s = true
     ∧ ∃ b, users s !! u = Some b ∧ (b <? a)%float = false
     ∧ place_bet u a s =
       (BetAccepted,
        set_bets (<[u := mkBet a None]> (bets s))
          (set_users (<[u := (b - a)%float]> (users s)) s))).
Proof.
  unfold place_bet. destruct (accepting_bets s); [|auto].
  right. destruct (users s !! u) as [b|]; [|auto].
  destruct (b <? a)%float eqn:E; [left|right]; eauto 10.
Qed.

(** C4 fails on the code: [place_bet] has no duplicate check.  With user 1
    holding 100 and a bet of 20 already in the registry, a second bet of 30
    in the same window is accepted, debited, and written over the first. *)
Lemma duplicate_bet_accepted :
  let s1 := snd (place_bet 1 20 scenario_open) in
  bets s1 !! 1 = Some (mkBet 20 None)
  ∧ users s1 !! 1 = Some 80%float
  ∧ fst (place_bet 1 30 s1) = BetAccepted
  ∧ users (snd (place_bet 1 30 s1)) !! 1 = Some 50%float
  ∧ bets (snd (place_bet 1 30 s1)) !! 1 = Some (mkBet 30 None).
Proof. vm_compute. repeat split. Qed.

(** C4 as the code has it: the registry is keyed by user, so it holds at
    most one bet per user, and a second bet of a user with an active bet is
    treated like a first one.
    - With betting open and a balance not below the amount it is accepted:
      the balance is debited by the new amount and the recorded bet is
      replaced by the new one, the registry still holding one entry for the
      user.
    - With betting closed it is rejected with BettingClosed, and with
      betting open and no account or a balance below the amount with
      InsufficientFunds; nothing changes then. *)
Theorem second_bet_replaces (u : Z) (a : float) (s : State) (old : BetEntry) :
  bets s !! u = Some old →
  (∀ b, accepting_bets s = true → users s !! u = Some b → (b <? a)%float = false →
        place_bet u a s =
          (BetAccepted,
           set_bets (<[u := mkBet a None]> (bets s))
             (set_users (<[u := (b - a)%float]> (users s)) s))
        ∧ users (snd (place_bet u a s)) !! u = Some (b - a)%float
        ∧ bets (snd (place_bet u a s)) !! u = Some (mkBet a None)
        ∧ dom (bets (snd (place_bet u a s))) = dom (bets s))
  ∧ (accepting_bets s = false → place_bet u a s = (Rejected BettingClosed, s))
  ∧ (accepting_bets s = true →
     users s !! u = None ∨ (∃ b, users s !! u = Some b ∧ (b <? a)%float = true) →
     place_bet u a s = (Rejected InsufficientFunds, s)).
Proof.
  intros Hold. split; [|split].
  - intros b Hacc Hb Hlt.
    assert (place_bet u a s =
            (BetAccepted,
             set_bets (<[u := mkBet a None]> (bets s))
               (set_users (<[u := (b - a)%float]> (users s)) s))) as E
      by (unfold place_bet; rewrite Hacc, Hb; cbn; rewrite Hlt; reflexivity).
    rewrite E. cbn. rewrite !lookup_insert_eq.
    split; [reflexivity|]. split; [reflexivity|]. split; [reflexivity|].
    apply dom_insert_lookup_L. eauto.
  - intros Hacc. unfold place_bet. rewrite Hacc. reflexivity.
  - intros Hacc [Hn|(b & Hb & Hlt)]; unfold place_bet; rewrite Hacc; cbn.
    + rewrite Hn. reflexivity.
    + rewrite Hb, Hlt. reflexivity.
Qed.

Lemma second_bet_replaces_witness :
  let s1 := snd (place_bet 1 20 scenario_open) in
  bets s1 !! 1 = Some (mkBet 20 None)
  ∧ accepting_bets s1 = true
  ∧ users s1 !! 1 = Some 80%float
  ∧ fst (place_bet 1 30 s1) = BetAccepted
  ∧ users (snd (place_bet 1 30 s1)) !! 1 = Some 50%float
  ∧ bets (snd (place_bet 1 30 s1)) !! 1 = Some (mkBet 30 None).
Proof.
  assert (bets (snd (place_bet 1 20 scenario_open)) !! 1 = Some (mkBet 20 None)) as H
    by (vm_compute; reflexivity).
  assert (accepting_bets (snd (place_bet 1 20 scenario_open)) = true) as Hacc
    by (vm_compute; reflexivity).
  assert (users (snd (place_bet 1 20 scenario_open)) !! 1 = Some 80%float) as Hb
    by (vm_compute; reflexivity).
  assert ((80 <? 30)%float = false) as Hlt by reflexivity.
  destruct (proj1 (second_bet_replaces 1 30 _ _ H) 80%float Hacc Hb Hlt)
    as (E & Hu & Hr & _).
  cbv zeta. split; [exact H|]. split; [exact Hacc|]. split; [exact Hb|].
  split; [rewrite E; reflexivity|]. split; [exact Hu|exact Hr].
Defined.

(** A balance that is not negative is never below an amount [<= 0]. *)
Lemma not_below_nonpositive (b a : float) :
  not_negative b → (a <=? 0)%float = true → (b <? a)%float = false.
Proof.
  rewrite not_negative_sf, FloatAxioms.leb_spec, FloatAxioms.ltb_spec.
  change (Prim2SF 0) with (S754_zero false).
  destruct (Prim2SF b) as [[]|[]| |[] mb eb], (Prim2SF a) as [[]|[]| |[] ma ea];
    cbn; congruence.
Qed.

(** C9 fails on the code: no handler validates an amount.  With user 1
    holding 100 in an open window, a bet of -5 is accepted: the balance
    becomes 105 and the registry records a stake of -5. *)
Lemma negative_bet_accepted :
  (-5 <=? 0)%float = true
  ∧ fst (place_bet 1 (-5) scenario_open) = BetAccepted
  ∧ users scenario_open !! 1 = Some 100%float
  ∧ users (snd (place_bet 1 (-5) scenario_open)) !! 1 = Some 105%float
  ∧ bets scenario_open !! 1 = None
  ∧ bets (snd (place_bet 1 (-5) scenario_open)) !! 1 = Some (mkBet (-5) None).
Proof. vm_compute. repeat split. Qed.

(** C9 as the code has it: an amount [<= 0] meets no check of its own.
    [place_bet] rejects it only through the phase gate (BettingClosed) or
    for a user without an account (InsufficientFunds), and a rejection
    leaves balances and registry unchanged; for a user whose balance is not
    negative the funds check passes, so in an open window the bet is
    accepted, the balance becomes balance - amount and the bet is
    recorded. *)
Theorem nonpositive_bet_unchecked (u : Z) (a : float) (s : State) :
  (a <=? 0)%float = true →
  (∀ e, fst (place_bet u a s) = Rejected e →
        (e = BettingClosed ∨ e = InsufficientFunds) ∧ snd (place_bet u a s) = s)
  ∧ (∀ b, accepting_bets s = true → users s !! u = Some b → not_negative b →
          place_bet u a s =
          (BetAccepted,
           set_bets (<[u := mkBet a None]> (bets s))
             (set_users (<[u := (b - a)%float]> (users s)) s))).
Proof.
  intros Ha. split.
  - intros e He.
    destruct (place_bet_cases u a s) as [[_ E]|[(_ & _ & E)|(_ & b & _ & _ & E)]];
      rewrite E in He |- *; cbn in He |- *; try discriminate He;
      injection He as <-; auto.
  - intros b Hacc Hb Hnn. unfold place_bet. rewrite Hacc, Hb. cbn.
    rewrite (not_below_nonpositive b a Hnn Ha). reflexivity.
Qed.

Lemma nonpositive_bet_unchecked_witness :
  (-5 <=? 0)%float = true
  ∧ place_bet 1 (-5) scenario_open =
    (BetAccepted,
     set_bets (<[1 := mkBet (-5) None]> (bets scenario_open))
       (set_users (<[1 := (100 - -5)%float]> (users scenario_open)) scenario_open)).
Proof.
  assert ((-5 <=? 0)%float = true) as H by reflexivity.
  split; [exact H|].
  apply (proj2 (nonpositive_bet_unchecked 1 (-5) scenario_open H) 100%float);
    vm_compute; reflexivity.
Defined.

(** ** Cashout *)

(** The successful path of [cashout]. *)
Lemma cashout_accepted (u : Z) (s : State) (bet : BetEntry) (b : float) :
  bets s !! u = Some bet → users s !! u = Some b →
  cashout u s =
    (CashedOut (py_round2 (amount bet * current_multiplier s)),
     set_bets (delete u (bets s))
       (set_users (<[u := (b + amount bet * current_multiplier s)%float]> (users s)) s)).
Proof. intros Hbet Hb. unfold cashout. rewrite Hbet, Hb. reflexivity. Qed.

(** C5: a cashout of a user with a bet in the registry and an account pays
    [win = bet.amount * current_multiplier], as the multiplier stands when
    the handler runs: the answer reports the win (rounded for display), the
    balance grows by exactly [win], the bet leaves the registry, and nothing
    else changes. *)
Theorem cashout_pays (u : Z) (s : State) (bet : BetEntry) (b : float) :
  bets s !! u = Some bet → users s !! u = Some b →
  let win := (amount bet * current_multiplier s)%float in
  cashout u s =
    (CashedOut (py_round2 win),
     set_bets (delete u (bets s)) (set_users (<[u := (b + win)%float]> (users s)) s))
  ∧ users (snd (cashout u s)) !! u = Some (b + win)%float
  ∧ bets (snd (cashout u s)) !! u = None
  ∧ (∀ v, v ≠ u → users (snd (cashout u s)) !! v = users s !! v
                 ∧ bets (snd (cashout u s)) !! v = bets s !! v).
Proof.
  intros Hbet Hb win. rewrite (cashout_accepted u s bet b Hbet Hb). fold win. cbn.
  rewrite lookup_insert_eq, lookup_delete_eq. repeat split; try reflexivity.
  - rewrite lookup_insert_ne by congruence. reflexivity.
  - rewrite lookup_delete_ne by congruence. reflexivity.
Qed.

(** The scenario of the specification: a stake of 20 from a balance of
    100, cashed out at 1.53, pays 30.6 and takes the balance from 80 to
    110.6. *)
Lemma cashout_pays_witness :
  bets scenario_flight !! 1 = Some (mkBet 20 None)
  ∧ users scenario_flight !! 1 = Some 80%float
  ∧ current_multiplier scenario_flight = 1.53%float
  ∧ fst (cashout 1 scenario_flight) = CashedOut 30.6
  ∧ users (snd (cashout 1 scenario_flight)) !! 1 = Some 110.6%float
  ∧ bets (snd (cashout 1 scenario_flight)) !! 1 = None.
Proof.
  assert (bets scenario_flight !! 1 = Some (mkBet 20 None)) as H1 by (vm_compute; reflexivity).
  assert (users scenario_flight !! 1 = Some 80%float) as H2 by (vm_compute; reflexivity).
  assert (current_multiplier scenario_flight = 1.53%float) as H3 by (vm_compute; reflexivity).
  destruct (cashout_pays 1 scenario_flight _ _ H1 H2) as (E & Hu & Hb & _).
  split; [exact H1|]. split; [exact H2|]. split; [exact H3|].
  split; [|split; [|exact Hb]].
  - rewrite E. cbn [fst amount]. rewrite H3. vm_compute. reflexivity.
  - rewrite Hu. cbn [amount]. rewrite H3. vm_compute. reflexivity.
Defined.

(** C1 fails on the code: [cashout] never looks at the phase.  The flag
    [round_active] is maintained by the loop and read nowhere, while
    [place_bet] is gated by [accepting_bets].
    - In the betting window after a round that crashed at 1.5 the
      multiplier still stands at 1.5: a stake of 20 placed in that window is
      cashed out at once for 30, and the balance goes from 80 to 110.
    - While the crash message is broadcast the phase is Crashed and the
      registry is not cleared yet: the cashout pays as well. *)
Theorem cashout_outside_flight :
  (phase scenario_window = Waiting
   ∧ current_multiplier scenario_window = 1.5%float
   ∧ users scenario_window !! 1 = Some 80%float
   ∧ fst (cashout 1 scenario_window) = CashedOut 30
   ∧ users (snd (cashout 1 scenario_window)) !! 1 = Some 110%float
   ∧ bets (snd (cashout 1 scenario_window)) !! 1 = None)
  ∧ (phase scenario_crash = Crashed
     ∧ users scenario_crash !! 1 = Some 80%float
     ∧ fst (cashout 1 scenario_crash) = CashedOut 30
     ∧ users (snd (cashout 1 scenario_crash)) !! 1 = Some 110%float
     ∧ bets (snd (cashout 1 scenario_crash)) !! 1 = None).
Proof. vm_compute. repeat split. Qed.

(** What the code does guarantee about a late cashout: once the registry
    holds no bet of the user (in particular after the crash has cleared
    it), [cashout] answers "bet not found" and changes nothing. *)
Lemma cashout_without_bet (u : Z) (s : State) :
  bets s !! u = None → cashout u s = (Rejected NoActiveBet, s).
Proof. intros H. unfold cashout. rewrite H. reflexivity. Qed.

(** ** Rounding *)

(** C10: rounding happens where a value is reported and nowhere in the
    ledger.  [get_balance] returns the stored balance rounded to two
    decimals; a top-up, an accepted bet and a cashout store the exact float
    sum, difference and sum with the unrounded win [amount * multiplier];
    the cashout reports the win rounded. *)
Theorem rounding_only_when_reported (u : Z) (s : State) (b : float) :
  users s !! u = Some b →
  get_balance u s = py_round2 b
  ∧ (∀ a, users (snd (topup_balance u a s)) !! u = Some (b + a)%float)
  ∧ (∀ a, fst (place_bet u a s) = BetAccepted →
          users (snd (place_bet u a s)) !! u = Some (b - a)%float)
  ∧ (∀ bet, bets s !! u = Some bet →
            fst (cashout u s) = CashedOut (py_round2 (amount bet * current_multiplier s))
            ∧ users (snd (cashout u s)) !! u
              = Some (b + amount bet * current_multiplier s)%float).
Proof.
  intros Hb. split; [|split; [|split]].
  - unfold get_balance. rewrite Hb. reflexivity.
  - intros a. unfold topup_balance, credit. rewrite Hb. cbn. apply lookup_insert_eq.
  - intros a Ha.
    destruct (place_bet_cases u a s) as [[_ E]|[(_ & _ & E)|(_ & b' & Hb' & _ & E)]];
      rewrite E in Ha |- *; try discriminate Ha.
    cbn. rewrite lookup_insert_eq. congruence.
  - intros bet Hbet. rewrite (cashout_accepted u s bet b Hbet Hb). cbn.
    rewrite lookup_insert_eq. split; reflexivity.
Qed.

(** In [scenario_cents] the stored balance is 0.20000000000000004 and is
    reported as 0.2; the cashout stores the balance plus the unrounded win
    0.10700000000000001 and reports a win of 0.11. *)
Lemma rounding_only_when_reported_witness :
  users scenario_cents !! 1 = Some 0.20000000000000004%float
  ∧ get_balance 1 scenario_cents = 0.2%float
  ∧ fst (cashout 1 scenario_cents) = CashedOut 0.11
  ∧ users (snd (cashout 1 scenario_cents)) !! 1 = Some 0.30700000000000005%float.
Proof.
  assert (users scenario_cents !! 1 = Some 0.20000000000000004%float) as Hb
    by (vm_compute; reflexivity).
  assert (bets scenario_cents !! 1 = Some (mkBet 0.1 None)) as Hbet
    by (vm_compute; reflexivity).
  assert (current_multiplier scenario_cents = 1.07%float) as Hm
    by (vm_compute; reflexivity).
  destruct (rounding_only_when_reported 1 scenario_cents _ Hb) as (H1 & _ & _ & H4).
  destruct (H4 _ Hbet) as [H5 H6].
  split; [exact Hb|]. split; [rewrite H1; vm_compute; reflexivity|].
  split.
  - rewrite H5. cbn [amount]. rewrite Hm. vm_compute. reflexivity.
  - rewrite H6. cbn [amount]. rewrite Hm. vm_compute. reflexivity.
Defined.

(** ** The round engine *)

(** Engine steps compose. *)
Lemma engine_run_add n m r s :
  engine_run (n + m) r s = engine_run n r (engine_run m r s).
Proof. unfold engine_run. apply Nat.iter_add. Qed.

(** A float that is below another is no nan, hence [<=] itself. *)
Lemma leb_refl_of_ltb x y : (x <? y)%float = true → (x <=? x)%float = true.
Proof.
  rewrite FloatAxioms.ltb_spec, FloatAxioms.leb_spec. unfold SFltb, SFleb.
  destruct (Prim2SF x) as [[]|[]| |[] m e], (Prim2SF y) as [[]|[]| |[] m' e'];
    cbn; try congruence; intros _; rewrite Z.compare_refl; 
    change (Pos.compare_cont Eq m m) with (Pos.compare m m); rewrite Pos.compare_refl; reflexivity.
Qed.

(** The engine follows [ticks_to_crash]: from a state in the flight loop
    with multiplier [m], two engine steps make one tick, every step on the
    way satisfies [flight_step_ok], and after [2 * k] steps the loop test
    fails for the first time.  Balances and registry are not touched. *)
Lemma flight_steps fuel : ∀ c m k s r,
  ticks_to_crash fuel c m = Some k → in_flight c s → current_multiplier s = m →
  (k ≤ fuel)%nat
  ∧ (∀ i, (i < 2 * k)%nat →
          flight_step_ok c (engine_run i r s) (engine_step r (engine_run i r s)))
  ∧ in_flight c (engine_run (2 * k) r s)
  ∧ (current_multiplier (engine_run (2 * k) r s) <? c)%float = false
  ∧ (c <=? current_multiplier (engine_run (2 * k) r s))%float = true
  ∧ users (engine_run (2 * k) r s) = users s
  ∧ bets (engine_run (2 * k) r s) = bets s.
Proof.
  induction fuel as [|fuel IH]; intros c m k s r Hk Hs Hm; cbn [ticks_to_crash] in Hk.
  - destruct (m <? c)%float eqn:Hlt; [discriminate|].
    destruct (c <=? m)%float eqn:Hle; [|discriminate]. injection Hk as <-.
    cbn. subst m. split; [lia|]. split; [intros i Hi; lia|].
    repeat split; auto; apply Hs.
  - destruct (m <? c)%float eqn:Hlt.
    + destruct (m <=? tick m)%float eqn:Hup; [|discriminate].
      destruct (ticks_to_crash fuel c (tick m)) as [k'|] eqn:Hk'; [|discriminate].
      injection Hk as <-.
      destruct Hs as (Hloc & Hact & Hacc & Hc).
      set (s1 := engine_step r s). set (s2 := engine_step r s1).
      assert (s1 = mkState (users s) (processed s) (bets s) (current_multiplier s)
                (crash_multiplier s) (round_active s) (accepting_bets s) LTickSleep (sent s)) as E1.
      { unfold s1, engine_step. destruct Hloc as [-> | ->]; unfold loop_test;
          rewrite Hm, Hc, Hlt; reflexivity. }
      assert (s2 = mkState (users s) (processed s) (bets s) (tick m)
                (crash_multiplier s) (round_active s) (accepting_bets s) LUpdateBcast
                (EvUpdate (tick m) :: sent s)) as E2.
      { unfold s2. rewrite E1. unfold engine_step. cbn. rewrite Hm. reflexivity. }
      assert (in_flight c s2) as Hs2 by (rewrite E2; repeat split; cbn; auto).
      assert (current_multiplier s2 = tick m) as Hm2 by (rewrite E2; reflexivity).
      destruct (IH c (tick m) k' s2 r Hk' Hs2 Hm2) as (Hle & Hsteps & Hfl & Hend1 & Hend2 & Hu & Hb).
      assert (∀ n, engine_run (n + 2) r s = engine_run n r s2) as Hrun.
      { intros n. rewrite engine_run_add. reflexivity. }
      replace (2 * S k')%nat with (2 * k' + 2)%nat by lia. rewrite Hrun.
      split; [lia|].
      split; [|split; [exact Hfl|split; [exact Hend1|split; [exact Hend2|]]];
                split; [rewrite Hu|rewrite Hb]; rewrite E2; reflexivity].
      intros i Hi.
      destruct i as [|[|i]].
      * change (flight_step_ok c s s1). rewrite E1. unfold flight_step_ok, phase. cbn.
        rewrite Hacc, Hact, Hc, Hm. repeat split; auto.
        -- eapply leb_refl_of_ltb; eauto.
        -- destruct Hloc as [-> | ->]; auto.
      * change (flight_step_ok c s1 s2). rewrite E1, E2. unfold flight_step_ok, phase. cbn.
        rewrite Hacc, Hact, Hm. repeat split; auto.
      * replace (S (S i)) with (i + 2)%nat by lia. rewrite Hrun. apply Hsteps. lia.
    + destruct (c <=? m)%float eqn:Hle; [|discriminate]. injection Hk as <-.
      cbn. subst m. split; [lia|]. split; [intros i Hi; lia|].
      repeat split; auto; apply Hs.
Qed.

(** For every draw the crash point is in range and the flight ends. *)
Lemma ticks_from_draw r :
  in_draw_range r →
  (1.5 <=? py_round2 r)%float = true ∧ (py_round2 r <=? 3)%float = true
  ∧ ∃ k, ticks_to_crash 200 (py_round2 r) 1 = Some k.
Proof.
  intros Hr. destruct (draw_rounds_to_hundredths r Hr) as (n & Hn & ->).
  pose proof (crash_point_ok_range n Hn) as Hok. unfold crash_point_ok in Hok.
  apply andb_prop in Hok as [Hok Hk]. apply andb_prop in Hok as [H1 H2].
  split; [exact H1|]. split; [exact H2|].
  destruct (ticks_to_crash 200 (hundredths n) 1) as [k|]; [eauto|discriminate].
Qed.

(** The step from the top of the loop opens the betting window. *)
Lemma engine_step_open r s :
  loc s = LStart ∨ loc s = LPauseSleep →
  engine_step r s =
  mkState (users s) (processed s) (bets s) (current_multiplier s)
    (crash_multiplier s) (round_active s) true LWaitingBcast (EvWaiting :: sent s).
Proof. unfold engine_step. intros [-> | ->]; reflexivity. Qed.

(** C6: one turn of [round_loop], from its top (start-up, or the end of
    the pause after a crash) with a draw [r] of [random.uniform(1.5, 3.0)].
    - The phases come in the order Waiting, Flight, Crashed, Waiting.
    - On entering the flight the multiplier is 1.0 and the crash point is
      the draw rounded to two decimals, which lies in [1.5, 3.0].
    - The flight takes [k <= 200] ticks.  At each of its steps the phase is
      Flight and the multiplier does not decrease; a tick sets it to
      [round(m + 0.01, 2)], and the loop goes on only while the multiplier
      is below the crash point.
    - The flight is left at the first test with crash point <= multiplier:
      the next step is in phase Crashed, the one after has cleared the
      registry without touching a balance, and the third reopens the
      betting window. *)
Theorem round_engine_cycle (s : State) (r : float) :
  loc s = LStart ∨ loc s = LPauseSleep → in_draw_range r →
  let w := engine_run 2 r s in
  let f := engine_step r w in
  phase (engine_step r s) = Waiting ∧ phase w = Waiting
  ∧ phase f = Flight
  ∧ current_multiplier f = 1%float
  ∧ crash_multiplier f = py_round2 r
  ∧ (1.5 <=? crash_multiplier f)%float = true
  ∧ (crash_multiplier f <=? 3)%float = true
  ∧ ∃ k : nat,
      (k ≤ 200)%nat
      ∧ (∀ i, (i < 2 * k)%nat →
           flight_step_ok (crash_multiplier f)
             (engine_run i r f) (engine_step r (engine_run i r f)))
      ∧ let e := engine_run (2 * k) r f in
        phase e = Flight
        ∧ (crash_multiplier f <=? current_multiplier e)%float = true
        ∧ phase (engine_step r e) = Crashed
        ∧ current_multiplier (engine_step r e) = current_multiplier e
        ∧ phase (engine_run 2 r e) = Crashed
        ∧ bets (engine_run 2 r e) = ∅
        ∧ users (engine_run 2 r e) = users s
        ∧ loc (engine_run 2 r e) = LPauseSleep
        ∧ phase (engine_run 3 r e) = Waiting.
Proof.
  intros Hloc Hr w f.
  destruct (ticks_from_draw r Hr) as (Hlo & Hhi & k & Hk).
  assert (f = mkState (users s) (processed s) (bets s) 1%float (py_round2 r)
                true false LStartBcast (EvStart (py_round2 r) :: EvWaiting :: sent s)) as Ef.
  { unfold f, w. change (engine_run 2 r s) with (engine_step r (engine_step r s)).
    rewrite (engine_step_open r s Hloc). reflexivity. }
  assert (in_flight (py_round2 r) f) as Hf by (rewrite Ef; repeat split; auto).
  assert (current_multiplier f = 1%float) as Hm by (rewrite Ef; reflexivity).
  assert (crash_multiplier f = py_round2 r) as Hc by (rewrite Ef; reflexivity).
  destruct (flight_steps 200 _ _ k f r Hk Hf Hm) as (Hle & Hsteps & He & Hend1 & Hend2 & Hu & Hb).
  rewrite Hc.
  split. { rewrite (engine_step_open r s Hloc). reflexivity. }
  split. { unfold w. change (engine_run 2 r s) with (engine_step r (engine_step r s)).
           rewrite (engine_step_open r s Hloc). reflexivity. }
  split. { rewrite Ef. reflexivity. }
  split; [exact Hm|]. split; [reflexivity|]. split; [exact Hlo|]. split; [exact Hhi|].
  exists k. split; [exact Hle|]. split; [exact Hsteps|].
  set (e := engine_run (2 * k) r f) in *. cbv zeta. clearbody e.
  destruct He as (Hel & Hact & Hacc & Hec).
  assert (engine_step r e = mkState (users e) (processed e) (bets e) (current_multiplier e)
            (crash_multiplier e) false (accepting_bets e) LCrashBcast
            (EvCrash (crash_multiplier e) :: sent e)) as Ec.
  { unfold engine_step. destruct Hel as [-> | ->]; unfold loop_test; rewrite Hec, Hend1; reflexivity. }
  change (engine_run 3 r e) with (engine_step r (engine_step r (engine_step r e))).
  change (engine_run 2 r e) with (engine_step r (engine_step r e)).
  rewrite Ec. unfold phase, engine_step. cbn.
  rewrite Hacc, Hact, Hu, Ef. cbn. repeat split; auto.
Qed.

Lemma round_engine_cycle_witness :
  loc init_state = LStart ∧ in_draw_range 2
  ∧ phase (engine_step 2 init_state) = Waiting
  ∧ phase (engine_run 3 2 init_state) = Flight
  ∧ crash_multiplier (engine_run 3 2 init_state) = 2%float.
Proof.
  assert (in_draw_range 2) as Hr by (split; reflexivity).
  pose proof (round_engine_cycle init_state 2 (or_introl eq_refl) Hr) as T.
  cbv zeta in T. destruct T as (H1 & _ & H2 & _ & H3 & _).
  split; [reflexivity|]. split; [exact Hr|]. split; [exact H1|]. split; [exact H2|].
  change (engine_run 3 2 init_state) with (engine_step 2 (engine_run 2 2 init_state)).
  rewrite H3. vm_compute. reflexivity.
Defined.

(** ** Reconciliation *)

(** [process_tx] by the kind of the transaction. *)
Lemma process_tx_kind (tx : Tx) (s : State) :
  process_tx tx s =
  match tx_kind tx with
  | Unreadable => (TxSkipped, s)
  | Overflowing => (TxRaised, s)
  | Payment u a =>
      match processed s !! hash tx with
      | Some _ => (TxSkipped, s)
      | None =>
          if storable u then
            (TxApplied,
             set_processed (<[hash tx := u]> (processed s))
               (set_users (credit u a (users s)) s))
          else (TxRaised, s)
      end
  end.
Proof.
  unfold process_tx, tx_kind.
  destruct (memo_user tx) as [u|]; [|reflexivity].
  destruct (in_msg tx) as [msg|]; [|reflexivity].
  destruct (tx_amount msg); reflexivity.
Qed.







Lemma run_cons a l s : run (a :: l) s = run l (step a s).
Proof. reflexivity. Qed.






(** ** Requests and the engine

    The turn of C6 is stated on engine steps alone.  It holds with requests
    in between as well, since the engine never reads what a handler
    writes. *)

Lemma check_transactions_view (txs : list Tx) :
  ∀ s, engine_view (snd (check_transactions txs s)) = engine_view s.
Proof.
  induction txs as [|tx rest IH]; intros s; [reflexivity|].
  cbn [check_transactions]. rewrite process_tx_kind.
  destruct (tx_kind tx) as [| |u a]; [apply IH|reflexivity|].
  destruct (processed s !! hash tx); [apply IH|].
  destruct (storable u); [|reflexivity]. rewrite IH. reflexivity.
Qed.

(** No request handler writes a variable of the engine. *)
Lemma request_keeps_engine (a : Action) (s : State) :
  is_engine a = false → engine_view (step a s) = engine_view s.
Proof.
  destruct a as [v|v x|v x|v|txs|r]; cbn [step is_engine]; intros Ha;
    try discriminate Ha; try reflexivity.
  - destruct (storable v); reflexivity.
  - destruct (storable v); [|reflexivity].
    destruct (place_bet_cases v x s) as [[_ E]|[(_ & _ & E)|(_ & b & _ & _ & E)]];
      rewrite E; reflexivity.
  - destruct (storable v); [|reflexivity].
    unfold cashout. destruct (bets s !! v); [|reflexivity].
    destruct (users s !! v); reflexivity.
  - apply check_transactions_view.
Qed.

(** The engine's variables after a step depend on nothing but them. *)
Lemma engine_step_view (r : float) (s s' : State) :
  engine_view s = engine_view s' →
  engine_view (engine_step r s) = engine_view (engine_step r s').
Proof.
  unfold engine_view. intros [= E1 E2 E3 E4 E5 E6].
  unfold engine_step, loop_test. rewrite E1, E2, E3, E4, E5, E6.
  destruct (loc s'); try reflexivity;
    destruct (current_multiplier s' <? crash_multiplier s')%float; reflexivity.
Qed.

(** Requests are invisible to the engine: its variables after a run are
    those after the engine steps of the run alone. *)
Lemma run_engine_view (l : list Action) :
  ∀ s s', engine_view s = engine_view s' →
          engine_view (run l s) = engine_view (run (List.filter is_engine l) s').
Proof.
  induction l as [|a l IH]; intros s s' E; [exact E|].
  rewrite run_cons. cbn [List.filter]. destruct (is_engine a) eqn:Ha.
  - rewrite run_cons. apply IH. destruct a; try discriminate Ha. cbn [step].
    apply engine_step_view, E.
  - apply IH. rewrite request_keeps_engine by exact Ha. exact E.
Qed.

(** ** The multipliers in every reachable state *)

(** Checked by evaluation for every multiplier from 1.00 to 3.00. *)
Lemma ticks_checked : forallb tick_exact (seqZ 100 200) = true.
Proof. vm_compute. reflexivity. Qed.

Lemma orders_checked :
  forallb (λ j, forallb (order_exact j) (seqZ 100 201)) (seqZ 100 201) = true.
Proof. vm_compute. reflexivity. Qed.

Lemma tick_hundredths (j : Z) :
  100 ≤ j < 300 → tick (hundredths j) = hundredths (j + 1).
Proof.
  intros Hj. pose proof ticks_checked as H. rewrite forallb_forall in H.
  apply FloatAxioms.Leibniz.eqb_spec. apply (H j).
  apply list_elem_of_In, elem_of_seqZ. lia.
Qed.

Lemma hundredths_order (j n : Z) :
  100 ≤ j ≤ 300 → 100 ≤ n ≤ 300 →
  (hundredths j <? hundredths n)%float = (j <? n)
  ∧ (hundredths j <=? hundredths n)%float = (j <=? n).
Proof.
  intros Hj Hn. pose proof orders_checked as H. rewrite forallb_forall in H.
  assert (In j (seqZ 100 201)) as Ij by (apply list_elem_of_In, elem_of_seqZ; lia).
  assert (In n (seqZ 100 201)) as In' by (apply list_elem_of_In, elem_of_seqZ; lia).
  specialize (H j Ij). rewrite forallb_forall in H. specialize (H n In').
  unfold order_exact in H. apply andb_prop in H as [H1 H2].
  apply Bool.eqb_prop in H1, H2. auto.
Qed.

Lemma multiplier_inv_view (s s' : State) :
  engine_view s' = engine_view s → multiplier_inv s → multiplier_inv s'.
Proof.
  intros [= E1 E2 _ _ E5 _] (j & n & H1 & H2 & H3 & H4 & H5).
  exists j, n. rewrite E1, E2, E5. auto.
Qed.

Lemma multiplier_inv_step (a : Action) (s : State) :
  draw_ok a → multiplier_inv s → multiplier_inv (step a s).
Proof.
  intros Ha Hs. destruct (is_engine a) eqn:Ea.
  - destruct a as [v|v x|v x|v|txs|r]; try discriminate Ea. cbn [step draw_ok] in *.
    destruct Hs as (j & n & Hjn & Hn & Hc & Hk & Ht).
    unfold engine_step, loop_test. destruct (loc s) eqn:El.
    + exists j, n. cbn. repeat split; try assumption; try lia; try discriminate.
    + exists j, n. cbn. repeat split; try assumption; try lia; try discriminate.
    + destruct (draw_rounds_to_hundredths r Ha) as (n' & Hn' & ->).
      exists 100, n'. cbn. repeat split; try lia; try discriminate.
    + rewrite Hc, Hk. destruct (hundredths_order j n) as [-> _]; try lia.
      destruct (Z.ltb_spec j n); exists j, n; cbn;
        repeat split; try assumption; try lia; try discriminate.
    + exists (j + 1), n. cbn. specialize (Ht eq_refl).
      rewrite Hc. fold (tick (hundredths j)). rewrite tick_hundredths by lia.
      repeat split; try assumption; try lia; try discriminate.
    + rewrite Hc, Hk. destruct (hundredths_order j n) as [-> _]; try lia.
      destruct (Z.ltb_spec j n); exists j, n; cbn;
        repeat split; try assumption; try lia; try discriminate.
    + exists j, n. cbn. repeat split; try assumption; try lia; try discriminate.
    + exists j, n. cbn. repeat split; try assumption; try lia; try discriminate.
  - eapply multiplier_inv_view; [|exact Hs]. apply request_keeps_engine, Ea.
Qed.

Lemma multiplier_inv_run (l : list Action) :
  ∀ s, Forall draw_ok l → multiplier_inv s → multiplier_inv (run l s).
Proof.
  induction l as [|a l IH]; intros s Hl H; [exact H|].
  inversion Hl as [|? ? Ha Hl']; subst.
  rewrite run_cons. apply IH; [exact Hl'|]. apply multiplier_inv_step; assumption.
Qed.

Lemma multiplier_inv_init : multiplier_inv init_state.
Proof.
  exists 100, 200. repeat split; try lia; try (vm_compute; reflexivity); try discriminate.
Qed.

(** ** The ledger *)

(** The multipliers of the engine are finite and positive: checked by
    evaluation for each of 1.00 to 3.00. *)
Lemma hundredths_checked : forallb hundredths_finite (seqZ 100 201) = true.
Proof. vm_compute. reflexivity. Qed.

Lemma multiplier_finite (s : State) :
  multiplier_inv s → ∃ m e, Prim2SF (current_multiplier s) = S754_finite false m e.
Proof.
  intros (j & n & Hjn & Hn & -> & _ & _).
  pose proof hundredths_checked as H. rewrite forallb_forall in H.
  specialize (H j ltac:(apply list_elem_of_In, elem_of_seqZ; lia)).
  unfold hundredths_finite in H.
  destruct (Prim2SF (hundredths j)) as [| | |[] m e]; try discriminate H. eauto.
Qed.

(** The deltas of a run add up to the balance. *)
Lemma tx_kind_payment (tx : Tx) (u : Z) (a : float) :
  tx_kind tx = Payment u a →
  memo_user tx = Some u ∧ ∃ msg, in_msg tx = Some msg ∧ tx_amount msg = Some a.
Proof.
  unfold tx_kind. destruct (memo_user tx) as [u'|]; [|discriminate].
  destruct (in_msg tx) as [msg|]; [|discriminate].
  destruct (tx_amount msg) as [a'|] eqn:E; [|discriminate].
  intros [= -> ->]. eauto.
Qed.

Lemma check_deltas_cons (u : Z) (tx : Tx) (rest : list Tx) (s : State) :
  check_deltas u (tx :: rest) s =
  match tx_kind tx with
  | Unreadable => check_deltas u rest s
  | Overflowing => []
  | Payment u' a =>
      match processed s !! hash tx with
      | Some _ => check_deltas u rest s
      | None =>
          if storable u' then
            (if decide (u' = u) then [Credited a] else [])
            ++ check_deltas u rest (snd (process_tx tx s))
          else []
      end
  end.
Proof.
  cbn [check_deltas]. rewrite (process_tx_kind tx s).
  destruct (tx_kind tx) as [| |u' a] eqn:Hk.
  - destruct (memo_user tx), (in_msg tx ≫= tx_amount); reflexivity.
  - reflexivity.
  - apply tx_kind_payment in Hk as (Hu & msg & Hm & Ha). rewrite Hu, Hm. cbn. rewrite Ha.
    destruct (processed s !! hash tx); [reflexivity|].
    destruct (storable u'); reflexivity.
Qed.

Lemma credit_lookup (u' u : Z) (x : float) (f : gmap Z float) :
  credit u' x f !! u =
  fold_left apply_delta (if decide (u' = u) then [Credited x] else []) (f !! u).
Proof.
  unfold credit. destruct (decide (u' = u)) as [->|Hne]; cbn.
  - destruct (f !! u); cbn; apply lookup_insert_eq.
  - destruct (f !! u'); apply lookup_insert_ne; exact Hne.
Qed.

Lemma check_transactions_deltas (u : Z) (txs : list Tx) :
  ∀ s, users (snd (check_transactions txs s)) !! u
       = fold_left apply_delta (check_deltas u txs s) (users s !! u).
Proof.
  induction txs as [|tx rest IH]; intros s; [reflexivity|].
  rewrite check_deltas_cons. cbn [check_transactions]. rewrite (process_tx_kind tx s).
  destruct (tx_kind tx) as [| |u' a]; [apply IH|reflexivity|].
  destruct (processed s !! hash tx); [apply IH|].
  destruct (storable u'); [|reflexivity].
  rewrite fold_left_app, IH. cbn [snd users set_processed set_users].
  rewrite credit_lookup. reflexivity.
Qed.

Lemma step_deltas (u : Z) (a : Action) (s : State) :
  users (step a s) !! u = fold_left apply_delta (deltas_of u a s) (users s !! u).
Proof.
  destruct a as [v|v x|v x|v|txs|r]; cbn [step deltas_of answer].
  - reflexivity.
  - destruct (storable v); [|destruct (decide (v = u)); reflexivity].
    cbn. rewrite credit_lookup. destruct (decide (v = u)); reflexivity.
  - destruct (storable v); [|destruct (accepting_bets s); reflexivity].
    destruct (place_bet_cases v x s) as [[_ E]|[(_ & _ & E)|(_ & b & Hb & _ & E)]];
      rewrite E; cbn [fst snd]; try reflexivity.
    cbn. destruct (decide (v = u)) as [->|Hne]; cbn.
    + rewrite lookup_insert_eq, Hb. reflexivity.
    + rewrite lookup_insert_ne by exact Hne. reflexivity.
  - destruct (storable v); [|destruct (bets s !! v); reflexivity].
    unfold cashout. destruct (bets s !! v) as [bet|] eqn:Hbet; [|reflexivity].
    destruct (users s !! v) as [b|] eqn:Hb; [|reflexivity]. cbn.
    destruct (decide (v = u)) as [->|Hne]; cbn.
    + rewrite lookup_insert_eq, Hb. reflexivity.
    + rewrite lookup_insert_ne by exact Hne. reflexivity.
  - apply check_transactions_deltas.
  - unfold engine_step, loop_test. destruct (loc s); try reflexivity;
      destruct (current_multiplier s <? crash_multiplier s)%float; reflexivity.
Qed.

Lemma run_deltas_sum (u : Z) (l : list Action) :
  ∀ s, users (run l s) !! u = fold_left apply_delta (run_deltas u l s) (users s !! u).
Proof.
  induction l as [|a l IH]; intros s; [reflexivity|].
  rewrite run_cons. cbn [run_deltas]. rewrite fold_left_app, IH, step_deltas. reflexivity.
Qed.

(** Sound actions keep the ledger sound. *)
Lemma credit_sound (u : Z) (a : float) (f : gmap Z float) :
  nonneg_number a → map_Forall (λ _ b, nonneg_number b) f →
  map_Forall (λ _ b, nonneg_number b) (credit u a f).
Proof.
  intros Ha Hf. unfold credit. destruct (f !! u) as [b|] eqn:E.
  - apply map_Forall_insert_2; [|exact Hf]. apply add_number; [|exact Ha].
    exact (Hf u b E).
  - apply map_Forall_insert_2; assumption.
Qed.

Lemma process_tx_sound (tx : Tx) (s : State) :
  tx_nonneg tx →
  map_Forall (λ _ b, nonneg_number b) (users s) →
  map_Forall (λ _ b, nonneg_number b) (users (snd (process_tx tx s)))
  ∧ bets (snd (process_tx tx s)) = bets s.
Proof.
  intros Htx Hs. rewrite process_tx_kind.
  destruct (tx_kind tx) as [| |u a] eqn:Hk; try (split; [exact Hs|reflexivity]).
  destruct (processed s !! hash tx); [split; [exact Hs|reflexivity]|].
  destruct (storable u); [|split; [exact Hs|reflexivity]].
  apply tx_kind_payment in Hk as (_ & msg & Hm & Ha).
  split; [|reflexivity]. cbn. apply credit_sound; [|exact Hs].
  eapply tx_amount_number; [|exact Ha]. apply Htx, Hm.
Qed.

Lemma check_transactions_sound (txs : list Tx) :
  ∀ s, Forall tx_nonneg txs →
       map_Forall (λ _ b, nonneg_number b) (users s) →
       map_Forall (λ _ b, nonneg_number b) (users (snd (check_transactions txs s)))
       ∧ bets (snd (check_transactions txs s)) = bets s.
Proof.
  induction txs as [|tx rest IH]; intros s Htxs Hs; [split; [exact Hs|reflexivity]|].
  inversion Htxs as [|? ? Htx Hrest]; subst. cbn [check_transactions].
  destruct (process_tx_sound tx s Htx Hs) as [Hs' Hb].
  destruct (process_tx tx s) as [[] s']; cbn [snd] in *;
    try (destruct (IH s' Hrest Hs') as [H1 H2]; split; [exact H1|congruence]);
    split; assumption.
Qed.

Lemma draw_ok_sound (a : Action) : sound_action a → draw_ok a.
Proof. destruct a; cbn; auto. Qed.

Lemma step_sound (a : Action) (s : State) :
  sound_action a → sound_ledger s → sound_ledger (step a s).
Proof.
  intros Ha (Hu & Hb & Hm).
  split; [|split; [|apply multiplier_inv_step; [apply draw_ok_sound, Ha|exact Hm]]];
    destruct a as [v|v x|v x|v|txs|r]; cbn [step sound_action] in *; try assumption.
  - destruct (storable v); [|exact Hu]. cbn.
    apply credit_sound; [apply nonneg_finite_number, Ha|exact Hu].
  - destruct (storable v); [|exact Hu].
    destruct (place_bet_cases v x s) as [[_ E]|[(_ & _ & E)|(_ & b & Hvb & Hlt & E)]];
      rewrite E; cbn [snd]; try exact Hu.
    cbn. apply map_Forall_insert_2; [|exact Hu].
    apply sub_number; [exact Hlt|exact (Hu v b Hvb)|exact Ha].
  - destruct (storable v); [|exact Hu].
    unfold cashout. destruct (bets s !! v) as [bet|] eqn:Hbet; [|exact Hu].
    destruct (users s !! v) as [b|] eqn:Hvb; [|exact Hu]. cbn.
    apply map_Forall_insert_2; [|exact Hu].
    destruct (multiplier_finite s Hm) as (m & e & Hme).
    apply add_number; [exact (Hu v b Hvb)|].
    eapply mul_number; [exact Hme|exact (Hb v bet Hbet)].
  - apply check_transactions_sound; assumption.
  - unfold engine_step, loop_test.
    destruct (loc s); try (destruct (current_multiplier s <? crash_multiplier s)%float);
      exact Hu.
  - destruct (storable v); exact Hb.
  - destruct (storable v); [|exact Hb].
    destruct (place_bet_cases v x s) as [[_ E]|[(_ & _ & E)|(_ & b & Hvb & Hlt & E)]];
      rewrite E; cbn [snd]; try exact Hb.
    cbn. apply map_Forall_insert_2; [exact Ha|exact Hb].
  - destruct (storable v); [|exact Hb].
    unfold cashout. destruct (bets s !! v) as [bet|] eqn:Hbet; [|exact Hb].
    destruct (users s !! v) as [b|] eqn:Hvb; [|exact Hb]. cbn.
    apply map_Forall_delete. exact Hb.
  - destruct (check_transactions_sound txs s Ha Hu) as [_ ->]. exact Hb.
  - unfold engine_step, loop_test.
    destruct (loc s); try (destruct (current_multiplier s <? crash_multiplier s)%float);
      first [exact Hb|apply map_Forall_empty].
Qed.

Lemma run_sound (l : list Action) :
  ∀ s, Forall sound_action l → sound_ledger s → sound_ledger (run l s).
Proof.
  induction l as [|a l IH]; intros s Hl Hs; [exact Hs|].
  inversion Hl as [|? ? Ha Hl']; subst. rewrite run_cons.
  apply IH; [exact Hl'|]. apply step_sound; assumption.
Qed.

(** Zero, a positive number and infinity do not compare below zero. *)
Lemma number_not_negative (x : float) : nonneg_number x → not_negative x.
Proof.
  rewrite nonneg_number_sf, not_negative_sf.
  destruct (Prim2SF x) as [[]|[]| |[] m e]; cbn; congruence.
Qed.

(** C8 fails on the code: no handler validates an amount, and balances
    are floats.  A top-up of -5 for a new user leaves a balance of -5, which
    [get_balance] returns; and after top-ups of 1e16 and 1 the balance is
    1e16, not their sum. *)
Lemma negative_top_up :
  get_balance 1 (run [TopUp 1 (-5)] init_state) = (-5)%float
  ∧ (get_balance 1 (run [TopUp 1 (-5)] init_state) <? 0)%float = true
  ∧ get_balance 1 (run [TopUp 1 1e16; TopUp 1 1] init_state) = 1e16%float.
Proof. vm_compute. repeat split. Qed.

(** C8 as the code has it.  Start from a ledger whose balances are zero or
    positive, whose stakes are finite and not negative, with the
    multipliers as the engine leaves them, and run any sequence of requests
    and engine steps whose top-up amounts and stakes are finite and not
    negative, whose payment values are not negative and whose draws lie in
    [1.5, 3.0].  For a user [u] whose id the database can bind and whose
    balance has not grown past the largest float:
    - the stored balance is the float sum of the deltas applied to it,
      accumulated in the order applied (plus the amount of a top-up or
      payment, minus the stake of an accepted bet, plus stake * multiplier
      of a cashout; a request that is rejected or raises applies nothing);
    - [get_balance] returns that sum rounded to two decimals, 0 for a user
      without a row;
    - the returned balance is zero or positive: never negative, no nan. *)
Theorem balance_is_sum_of_deltas (l : list Action) (s : State) (u : Z) :
  sound_ledger s → Forall sound_action l → storable u = true →
  (∀ b, users (run l s) !! u = Some b → (b <? infinity)%float = true) →
  users (run l s) !! u = fold_left apply_delta (run_deltas u l s) (users s !! u)
  ∧ get_balance u (run l s)
    = match fold_left apply_delta (run_deltas u l s) (users s !! u) with
      | Some b => py_round2 b
      | None => 0%float
      end
  ∧ nonneg_number (get_balance u (run l s))
  ∧ not_negative (get_balance u (run l s)).
Proof.
  intros Hs Hl _ _. pose proof (run_deltas_sum u l s) as E.
  split; [exact E|]. split; [unfold get_balance; rewrite E; reflexivity|].
  destruct (run_sound l s Hl Hs) as (Hu & _ & _).
  assert (nonneg_number (get_balance u (run l s))) as H.
  { unfold get_balance. destruct (users (run l s) !! u) as [b|] eqn:Hb; [|left; reflexivity].
    apply py_round2_number. exact (Hu u b Hb). }
  split; [exact H|]. apply number_not_negative, H.
Qed.

Lemma balance_is_sum_of_deltas_witness :
  let l := [Engine 2; TopUp 1 100; PlaceBet 1 20; TopUp 1 0.5] in
  sound_ledger init_state ∧ Forall sound_action l
  ∧ run_deltas 1 l init_state = [Credited 100; Debited 20; Credited 0.5]
  ∧ users (run l init_state) !! 1 = Some 80.5%float
  ∧ get_balance 1 (run l init_state) = 80.5%float
  ∧ not_negative (get_balance 1 (run l init_state)).
Proof.
  cbv zeta.
  assert (sound_ledger init_state) as Hs.
  { split; [apply map_Forall_empty|]. split; [apply map_Forall_empty|].
    exists 100, 200. split; [lia|]. split; [lia|]. split; [reflexivity|].
    split; [reflexivity|]. intros H. discriminate H. }
  assert (Forall sound_action [Engine 2; TopUp 1 100; PlaceBet 1 20; TopUp 1 0.5]) as Hl.
  { apply Forall_cons. split; [split; reflexivity|].
    apply Forall_cons. split; [right; split; reflexivity|].
    apply Forall_cons. split; [right; split; reflexivity|].
    apply Forall_cons. split; [right; split; reflexivity|]. apply Forall_nil_2. }
  assert (run_deltas 1 [Engine 2; TopUp 1 100; PlaceBet 1 20; TopUp 1 0.5] init_state
          = [Credited 100; Debited 20; Credited 0.5]) as Hd by (vm_compute; reflexivity).
  assert (∀ b, users (run [Engine 2; TopUp 1 100; PlaceBet 1 20; TopUp 1 0.5] init_state) !! 1
               = Some b → (b <? infinity)%float = true) as Hf.
  { intros b Hb. vm_compute in Hb. injection Hb as <-. reflexivity. }
  destruct (balance_is_sum_of_deltas _ init_state 1 Hs Hl eq_refl Hf) as (H1 & H2 & _ & H4).
  split; [exact Hs|]. split; [exact Hl|].
  split; [exact Hd|]. split; [rewrite H1, Hd; vm_compute; reflexivity|].
  split; [rewrite H2, Hd; vm_compute; reflexivity|exact H4].
Defined.

(** ** Settlement of bets *)

(** The tickets of a map under insertion and deletion. *)
Lemma tickets_insert (m : gmap Z nat) (u : Z) (n : nat) :
  (map_to_list (<[u := n]> m)).*2
  ≡ₚ n :: (map_to_list (delete u m)).*2.
Proof.
  rewrite <- insert_delete_eq.
  rewrite map_to_list_insert by apply lookup_delete_eq. reflexivity.
Qed.

Lemma tickets_delete (m : gmap Z nat) (u : Z) (t : nat) :
  m !! u = Some t → (map_to_list m).*2 ≡ₚ t :: (map_to_list (delete u m)).*2.
Proof.
  intros H. rewrite <- (map_to_list_delete m u t H). reflexivity.
Qed.

(** The live tickets follow the registry. *)
Lemma live_lookup (s : State) (h : Hist) (u : Z) (t : nat) :
  live s h !! u = Some t ↔ ticket_of h !! u = Some t ∧ is_Some (bets s !! u).
Proof. unfold live. rewrite map_lookup_filter_Some. reflexivity. Qed.

Lemma live_same (s s' : State) (h : Hist) : bets s' = bets s → live s' h = live s h.
Proof. unfold live. intros ->. reflexivity. Qed.

Lemma live_tickets_same (s : State) (h h' : Hist) :
  ticket_of h' = ticket_of h → live s h' = live s h.
Proof. unfold live. intros ->. reflexivity. Qed.

Lemma live_accepted (s s' : State) (h h' : Hist) (u : Z) (e : BetEntry) (n : nat) :
  bets s' = <[u := e]> (bets s) → ticket_of h' = <[u := n]> (ticket_of h) →
  live s' h' = <[u := n]> (live s h).
Proof.
  intros E Et. apply map_eq. intros v. apply option_eq. intros t.
  rewrite live_lookup, E, Et. destruct (decide (v = u)) as [->|Hne].
  - rewrite !lookup_insert_eq. split; [intros [H _]; exact H|intros H; split; [exact H|eauto]].
  - rewrite !lookup_insert_ne by congruence. rewrite live_lookup. reflexivity.
Qed.

Lemma live_deleted (s s' : State) (h : Hist) (u : Z) :
  bets s' = delete u (bets s) → live s' h = delete u (live s h).
Proof.
  intros E. apply map_eq. intros v. apply option_eq. intros t.
  rewrite live_lookup, E. destruct (decide (v = u)) as [->|Hne].
  - rewrite !lookup_delete_eq. split; [intros [_ [x Hx]]; discriminate Hx|discriminate].
  - rewrite !lookup_delete_ne by congruence. rewrite live_lookup. reflexivity.
Qed.

Lemma live_emptied (s' : State) (h : Hist) : bets s' = ∅ → live s' h = ∅.
Proof.
  intros E. apply map_eq. intros v. apply option_eq. intros t.
  rewrite live_lookup, E, !lookup_empty. split; [intros [_ [x Hx]]; discriminate Hx|discriminate].
Qed.

Lemma cleared_none (s s' : State) (h : Hist) :
  bets s' = bets s → cleared_tickets s s' h = [].
Proof.
  intros E. unfold cleared_tickets.
  assert (filter (λ p : Z * nat, ¬ is_Some (bets s' !! p.1)) (live s h) = ∅) as ->.
  { apply map_empty_filter. intros v t Hv. apply live_lookup in Hv as [_ Hv].
    cbn. rewrite E. tauto. }
  rewrite map_to_list_empty. reflexivity.
Qed.

Lemma cleared_all (s s' : State) (h : Hist) :
  bets s' = ∅ → cleared_tickets s s' h = live_tickets s h.
Proof.
  intros E. unfold cleared_tickets, live_tickets.
  rewrite map_filter_id; [reflexivity|].
  intros v t _. cbn. rewrite E, lookup_empty. intros [x Hx]. discriminate Hx.
Qed.

(** The two ways a move changes the filing: the tickets handed out stay
    the same, or the next one is handed out. *)
Lemma hist_ok_same (s s' : State) (h h' : Hist) :
  hist_ok s h → dom (bets s') ⊆ dom (ticket_of h') →
  next_ticket h' = next_ticket h → all_tickets s' h' ≡ₚ all_tickets s h →
  hist_ok s' h'.
Proof.
  intros (_ & Hnd & Hlt) Hdom En Ep. split; [exact Hdom|]. rewrite En.
  split; [rewrite Ep; exact Hnd|]. intros t. rewrite Ep. apply Hlt.
Qed.

Lemma hist_ok_next (s s' : State) (h h' : Hist) :
  hist_ok s h → dom (bets s') ⊆ dom (ticket_of h') →
  next_ticket h' = S (next_ticket h) →
  all_tickets s' h' ≡ₚ next_ticket h :: all_tickets s h →
  hist_ok s' h'.
Proof.
  intros (_ & Hnd & Hlt) Hdom En Ep. split; [exact Hdom|]. rewrite En. split.
  - rewrite Ep. apply NoDup_cons. split; [|exact Hnd].
    intros Hin. apply Hlt in Hin. lia.
  - intros t. rewrite Ep, elem_of_cons, Hlt. lia.
Qed.

(** A move that leaves the registry and files nothing. *)
Lemma hist_ok_kept (s s' : State) (h : Hist) :
  hist_ok s h → bets s' = bets s → hist_ok s' h.
Proof.
  intros H E. apply (hist_ok_same s s' h h H); [rewrite E; apply H|reflexivity|].
  unfold all_tickets, live_tickets. rewrite (live_same s s' h E). reflexivity.
Qed.

(** An accepted bet: the entry of the user is written, the next ticket
    handed out, and the ticket the entry held before is replaced. *)
Lemma hist_ok_accepted (s s' : State) (h : Hist) (u : Z) (e : BetEntry) :
  hist_ok s h → bets s' = <[u := e]> (bets s) →
  hist_ok s' (file_answer s (Some (u, BetAccepted)) h).
Proof.
  intros H E. pose proof H as (Hdom & _ & _). cbn [file_answer].
  eapply (hist_ok_next s s' h); [exact H| | |].
  - cbn. rewrite E, !dom_insert_L. set_solver.
  - reflexivity.
  - unfold all_tickets, live_tickets. cbn [paid forfeited replaced].
    match goal with
    | |- context [live s' ?h'] =>
        rewrite (live_accepted s s' h h' u e (next_ticket h) E eq_refl)
    end.
    rewrite tickets_insert.
    destruct (live s h !! u) as [t|] eqn:Hv.
    + rewrite (tickets_delete _ _ _ Hv). cbn.
      apply perm_skip. symmetry. apply Permutation_middle.
    + rewrite (delete_id _ _ Hv). reflexivity.
Qed.

(** A paid cashout: the user's entry is deleted and its ticket filed
    under [paid]. *)
Lemma hist_ok_paid (s s' : State) (h : Hist) (u : Z) (w : float) :
  hist_ok s h → is_Some (bets s !! u) → bets s' = delete u (bets s) →
  hist_ok s' (file_answer s (Some (u, CashedOut w)) h).
Proof.
  intros H Hbet E. pose proof H as (Hdom & _ & _). cbn [file_answer].
  assert (is_Some (ticket_of h !! u)) as [t Ht].
  { apply elem_of_dom, Hdom, elem_of_dom, Hbet. }
  assert (live s h !! u = Some t) as Hv by (apply live_lookup; auto).
  rewrite Ht. cbn [default].
  eapply (hist_ok_same s s' h); [exact H| | |].
  - cbn. rewrite E, dom_delete_L. set_solver.
  - reflexivity.
  - unfold all_tickets, live_tickets. cbn [paid forfeited replaced].
    match goal with
    | |- context [live s' ?h'] => rewrite (live_tickets_same s' h h' eq_refl)
    end.
    rewrite (live_deleted s s' h u E), (tickets_delete _ _ _ Hv). cbn [app].
    rewrite (app_assoc _ (replaced h)), <- Permutation_middle, <- app_assoc.
    reflexivity.
Qed.

(** A step of the engine: it leaves the registry, or clears it. *)
Lemma engine_step_bets (r : float) (s : State) :
  bets (engine_step r s) = bets s ∨ (loc s = LCrashBcast ∧ bets (engine_step r s) = ∅).
Proof.
  unfold engine_step, loop_test.
  destruct (loc s); try (destruct (current_multiplier s <? crash_multiplier s)%float);
    auto.
Qed.

Lemma hist_ok_engine (r : float) (s : State) (h : Hist) :
  hist_ok s h → hist_ok (engine_step r s) (file_cleared s (engine_step r s) h).
Proof.
  intros H. pose proof H as (Hdom & _ & _).
  destruct (engine_step_bets r s) as [E|[_ E]];
    (eapply (hist_ok_same s _ h); [exact H| |reflexivity|]).
  - cbn. rewrite E. exact Hdom.
  - unfold all_tickets, live_tickets, file_cleared. cbn [paid forfeited replaced].
    rewrite (cleared_none s _ h E).
    match goal with
    | |- context [live (engine_step r s) ?h'] =>
        rewrite (live_tickets_same (engine_step r s) h h' eq_refl)
    end.
    rewrite (live_same s _ h E). reflexivity.
  - cbn. rewrite E, dom_empty_L. set_solver.
  - unfold all_tickets, live_tickets, file_cleared. cbn [paid forfeited replaced].
    rewrite (cleared_all s _ h E).
    match goal with
    | |- context [live (engine_step r s) ?h'] =>
        rewrite (live_tickets_same (engine_step r s) h h' eq_refl)
    end.
    rewrite (live_emptied _ h E), map_to_list_empty. cbn [fmap list_fmap app].
    fold (live_tickets s h).
    rewrite !app_assoc. apply Permutation_app_tail.
    rewrite <- (app_assoc _ (replaced h) (paid h)). apply Permutation_app_comm.
Qed.

Lemma check_transactions_bets (txs : list Tx) :
  ∀ s, bets (snd (check_transactions txs s)) = bets s.
Proof.
  induction txs as [|tx rest IH]; intros s; [reflexivity|].
  cbn [check_transactions]. rewrite process_tx_kind.
  destruct (tx_kind tx) as [| |u a]; [apply IH|reflexivity|].
  destruct (processed s !! hash tx); [apply IH|].
  destruct (storable u); [|reflexivity]. rewrite IH. reflexivity.
Qed.

(** The second stretch of the two handlers. *)
Lemma hist_ok_bet_resume (s : State) (h : Hist) (u : Z) (a : float) (row : option float) :
  hist_ok s h →
  hist_ok (snd (place_bet_resume u a row s))
    (file_answer s (Some (u, fst (place_bet_resume u a row s))) h).
Proof.
  intros H. unfold place_bet_resume.
  destruct row as [b|]; [|exact H].
  destruct (b <? a)%float; [exact H|].
  cbn [fst snd]. eapply hist_ok_accepted; [exact H|reflexivity].
Qed.

Lemma hist_ok_cashout_resume (s : State) (h : Hist) (u : Z) (row : option float) :
  hist_ok s h →
  hist_ok (snd (cashout_resume u row s))
    (file_answer s (Some (u, fst (cashout_resume u row s))) h).
Proof.
  intros H. unfold cashout_resume.
  destruct row as [b|]; [|exact H].
  destruct (bets s !! u) as [bet|] eqn:Hbet; [|exact H].
  cbn [fst snd]. eapply hist_ok_paid; [exact H|rewrite Hbet; eauto|reflexivity].
Qed.

(** The handlers served whole are their two stretches in a row, with the
    row as the table holds it. *)
Lemma place_bet_whole (u : Z) (a : float) (s : State) :
  place_bet u a s =
  if accepting_bets s then place_bet_resume u a (users s !! u) s
  else (Rejected BettingClosed, s).
Proof. unfold place_bet. destruct (accepting_bets s); reflexivity. Qed.

Lemma cashout_whole (u : Z) (s : State) :
  cashout u s =
  match bets s !! u with
  | Some _ => cashout_resume u (users s !! u) s
  | None => (Rejected NoActiveBet, s)
  end.
Proof.
  unfold cashout, cashout_resume. destruct (bets s !! u); [|reflexivity].
  destruct (users s !! u); reflexivity.
Qed.

(** [hist_ok] is an invariant of every move. *)
Lemma hist_ok_move (m : Move) (s : State) (ps : list Pending) (h : Hist) :
  hist_ok s h → hist_ok (move m s ps).1.2 (hist_move m s ps h).
Proof.
  intros H. destruct m as [a|u a|u|i row]; cbn [hist_move].
  - destruct a as [v|v x|v x|v|txs|r]; cbn [move answer step fst snd].
    + exact H.
    + apply (hist_ok_kept s _ h H). destruct (storable v); reflexivity.
    + destruct (storable v).
      * rewrite place_bet_whole. destruct (accepting_bets s); [|exact H].
        apply hist_ok_bet_resume, H.
      * destruct (accepting_bets s); exact H.
    + destruct (storable v).
      * rewrite cashout_whole. destruct (bets s !! v) eqn:Hb; [|exact H].
        apply hist_ok_cashout_resume, H.
      * destruct (bets s !! v); exact H.
    + apply (hist_ok_kept s _ h H), check_transactions_bets.
    + apply hist_ok_engine, H.
  - cbn [move]. destruct (accepting_bets s); [destruct (storable u)|]; exact H.
  - cbn [move]. destruct (bets s !! u); [destruct (storable u)|]; exact H.
  - cbn [move]. destruct (ps !! i) as [[u a|u]|]; cbn [fst snd].
    + apply hist_ok_bet_resume, H.
    + apply hist_ok_cashout_resume, H.
    + exact H.
Qed.

Lemma hist_ok_play (ms : list Move) :
  ∀ s ps h, hist_ok s h → hist_ok (play ms s ps h).1.1 (play ms s ps h).2.
Proof.
  induction ms as [|m ms IH]; intros s ps h H; [exact H|].
  cbn [play]. apply IH, hist_ok_move, H.
Qed.

Lemma no_hist_ok (s : State) : bets s = ∅ → hist_ok s no_hist.
Proof.
  intros E. unfold hist_ok, all_tickets, live_tickets.
  rewrite (live_emptied s no_hist E), map_to_list_empty. cbn. rewrite E.
  split; [set_solver|]. split; [constructor|].
  intros t. split; [intros H; inversion H|lia].
Qed.

Lemma play_app (ms ms' : list Move) :
  ∀ s ps h,
    play (ms ++ ms') s ps h
    = play ms' (play ms s ps h).1.1 (play ms s ps h).1.2 (play ms s ps h).2.
Proof.
  induction ms as [|m ms IH]; intros s ps h; [reflexivity|].
  cbn [app play]. apply IH.
Qed.

(** Moves that serve every request whole are a run. *)
Lemma play_whole (l : list Action) :
  ∀ s ps h, (play (Whole <$> l) s ps h).1.1 = run l s.
Proof.
  induction l as [|a l IH]; intros s ps h; [reflexivity|].
  cbn [fmap list_fmap play]. rewrite run_cons. apply IH.
Qed.

(** What [hist_ok] says about settlements. *)
Lemma hist_ok_settled (s : State) (h : Hist) :
  hist_ok s h →
  NoDup (paid h ++ forfeited h)
  ∧ (∀ t, t ∈ paid h ++ forfeited h → (t < next_ticket h)%nat ∧ t ∉ replaced h)
  ∧ (∀ u, is_Some (bets s !! u) →
          ∃ t, ticket_of h !! u = Some t ∧ (t < next_ticket h)%nat
               ∧ (t ∉ replaced h) ∧ t ∉ (paid h ++ forfeited h))
  ∧ (∀ t, (t < next_ticket h)%nat → t ∉ replaced h →
          t ∈ paid h ++ forfeited h
          ∨ ∃ u, ticket_of h !! u = Some t ∧ is_Some (bets s !! u))
  ∧ (bets s = ∅ → all_settled h).
Proof.
  intros (Hdom & Hnd & Hlt). unfold all_tickets in Hnd, Hlt.
  apply NoDup_app in Hnd as (_ & Hlive & Hnd).
  apply NoDup_app in Hnd as (_ & Hdisj & Hnd).
  assert (∀ t, (t < next_ticket h)%nat → t ∉ replaced h →
               t ∈ paid h ++ forfeited h
               ∨ ∃ u, ticket_of h !! u = Some t ∧ is_Some (bets s !! u)) as Hall.
  { intros t Ht Hr. apply Hlt in Ht.
    rewrite !elem_of_app in Ht. rewrite elem_of_app.
    destruct Ht as [Ht|[Ht|Ht]]; [right|contradiction|left; exact Ht].
    unfold live_tickets in Ht. apply list_elem_of_fmap in Ht as ([u t'] & -> & Hin).
    apply elem_of_map_to_list in Hin. exists u. apply live_lookup. exact Hin. }
  split; [exact Hnd|]. split; [|split; [|split; [exact Hall|]]].
  - intros t Ht. split.
    + apply Hlt. rewrite !elem_of_app. rewrite elem_of_app in Ht. tauto.
    + intros Hr. exact (Hdisj t Hr Ht).
  - intros u Hu.
    assert (is_Some (ticket_of h !! u)) as [t Ht]
      by (apply elem_of_dom, Hdom, elem_of_dom, Hu).
    assert (t ∈ live_tickets s h) as Hin.
    { unfold live_tickets. apply list_elem_of_fmap. exists (u, t). split; [reflexivity|].
      apply elem_of_map_to_list, live_lookup. auto. }
    exists t. split; [exact Ht|]. split; [|split].
    + apply Hlt. rewrite elem_of_app. auto.
    + intros Hr. apply (Hlive t Hin). rewrite elem_of_app. auto.
    + intros Hs. apply (Hlive t Hin). rewrite elem_of_app. auto.
  - intros Hempty t Ht Hr. destruct (Hall t Ht Hr) as [H|(u & _ & [b Hb])]; [exact H|].
    rewrite Hempty, lookup_empty in Hb. discriminate.
Qed.

(** C2 fails on the code for a bet that is written over.  User 1 stakes
    20 (ticket 0) and then 30 (ticket 1) in one window, cashes out during
    the flight and the round crashes, every request served whole.  The
    registry is empty, ticket 1 was paid, and ticket 0 was neither paid nor
    forfeited: its entry was replaced, and its stake of 20 is gone
    (100 - 20 - 30 + 31.2 = 81.2). *)
Lemma restake_unsettled :
  let end_ := play (Whole <$> scenario_restake) init_state [] no_hist in
  next_ticket end_.2 = 2%nat
  ∧ bets end_.1.1 = ∅
  ∧ paid end_.2 = [1%nat]
  ∧ forfeited end_.2 = []
  ∧ replaced end_.2 = [0%nat]
  ∧ users end_.1.1 !! 1 = Some 81.2%float.
Proof. vm_compute. repeat split. Qed.

(** C2 as the code has it: started with an empty registry, in every
    sequence of moves (requests served whole or split at their await, with
    any rows returned by the database, and engine steps in any order) every
    accepted bet that is not replaced by a later bet of the same user is
    resolved exactly once.
    - No ticket is settled twice, and none is both paid and forfeited.
    - Only accepted bets are settled, and a replaced bet never is.
    - Every entry of the registry is the latest accepted bet of its user,
      and that bet is neither replaced nor settled yet.
    - An accepted bet that was not replaced is paid, forfeited, or still
      the entry of its user in the registry.
    - Whenever the registry is empty, every accepted bet that was not
      replaced is paid or forfeited.
    - When the round has crashed, the next step of the engine empties the
      registry without touching a balance, and every accepted bet that was
      not replaced is then paid or forfeited. *)
Theorem settlement_exactly_once (ms : list Move) (s : State) (ps : list Pending) :
  bets s = ∅ →
  let s' := (play ms s ps no_hist).1.1 in
  let h := (play ms s ps no_hist).2 in
  NoDup (paid h ++ forfeited h)
  ∧ (∀ t, t ∈ paid h ++ forfeited h → (t < next_ticket h)%nat ∧ t ∉ replaced h)
  ∧ (∀ u, is_Some (bets s' !! u) →
          ∃ t, ticket_of h !! u = Some t ∧ (t < next_ticket h)%nat
               ∧ (t ∉ replaced h) ∧ t ∉ (paid h ++ forfeited h))
  ∧ (∀ t, (t < next_ticket h)%nat → t ∉ replaced h →
          t ∈ paid h ++ forfeited h
          ∨ ∃ u, ticket_of h !! u = Some t ∧ is_Some (bets s' !! u))
  ∧ (bets s' = ∅ → all_settled h)
  ∧ (loc s' = LCrashBcast →
     ∀ r, let after := play (ms ++ [Whole (Engine r)]) s ps no_hist in
          bets after.1.1 = ∅ ∧ users after.1.1 = users s' ∧ all_settled after.2).
Proof.
  intros E s' h.
  pose proof (hist_ok_play ms s ps no_hist (no_hist_ok s E)) as Hok.
  fold s' h in Hok.
  destruct (hist_ok_settled s' h Hok) as (H1 & H2 & H3 & H4 & H5).
  split; [exact H1|]. split; [exact H2|]. split; [exact H3|].
  split; [exact H4|]. split; [exact H5|].
  intros Hloc r after.
  pose proof (hist_ok_play (ms ++ [Whole (Engine r)]) s ps no_hist (no_hist_ok s E)) as Hok'.
  fold after in Hok'.
  assert (after.1.1 = engine_step r s') as Es
    by (unfold after; rewrite play_app; reflexivity).
  assert (bets after.1.1 = ∅ ∧ users after.1.1 = users s') as [Hb Hu]
    by (rewrite Es; unfold engine_step; rewrite Hloc; split; reflexivity).
  split; [exact Hb|]. split; [exact Hu|].
  apply (hist_ok_settled _ _ Hok'). exact Hb.
Qed.

(** In [scenario_overlap] the second cashout request of user 1 finds the
    entry gone and pays nothing, and the bet of user 2 written during the
    flight is forfeited at the crash: ticket 0 is paid once, ticket 1
    forfeited once. *)
Lemma settlement_exactly_once_witness :
  let end_ := play scenario_overlap init_state [] no_hist in
  bets init_state = ∅
  ∧ next_ticket end_.2 = 2%nat
  ∧ paid end_.2 = [0%nat]
  ∧ forfeited end_.2 = [1%nat]
  ∧ users end_.1.1 !! 1 = Some 101%float
  ∧ users end_.1.1 !! 2 = Some 45%float
  ∧ NoDup (paid end_.2 ++ forfeited end_.2)
  ∧ 1%nat ∈ paid end_.2 ++ forfeited end_.2.
Proof.
  cbv zeta.
  destruct (settlement_exactly_once scenario_overlap init_state [] eq_refl)
    as (H1 & _ & _ & _ & H5 & _).
  split; [reflexivity|].
  split; [vm_compute; reflexivity|]. split; [vm_compute; reflexivity|].
  split; [vm_compute; reflexivity|]. split; [vm_compute; reflexivity|].
  split; [vm_compute; reflexivity|]. split; [exact H1|].
  apply H5.
  - vm_compute. reflexivity.
  - vm_compute. repeat constructor.
  - assert (replaced (play scenario_overlap init_state [] no_hist).2 = []) as ->
      by (vm_compute; reflexivity).
    intros H. inversion H.
Defined.

(** * Further properties of the code *)

(** ** The engine in every reachable state *)

Lemma control_inv_step (a : Action) (s : State) :
  control_inv s → control_inv (step a s).
Proof.
  intros (Hacc & Hact). destruct (is_engine a) eqn:Ea.
  - destruct a as [v|v x|v x|v|txs|r]; try discriminate Ea. cbn [step].
    unfold engine_step, loop_test.
    destruct (loc s) eqn:El;
      try match goal with
          | |- context [(?a <? ?b)%float] => destruct (a <? b)%float
          end;
      unfold control_inv; cbn; rewrite ?El in *; cbn in *;
      split; try assumption; reflexivity.
  - pose proof (request_keeps_engine a s Ea) as Hv.
    injection Hv as _ _ E3 E4 E5 _.
    unfold control_inv. rewrite E3, E4, E5. split; assumption.
Qed.

Lemma control_inv_run (l : list Action) :
  ∀ s, control_inv s → control_inv (run l s).
Proof.
  induction l as [|a l IH]; intros s H; [exact H|].
  rewrite run_cons. apply IH, control_inv_step, H.
Qed.

Lemma control_inv_init : control_inv init_state.
Proof. split; reflexivity. Qed.

(** X1: in every state the server reaches from start-up, whatever requests
    and engine steps led there, the two phase flags are determined by where
    [round_loop] is suspended: [accepting_bets] holds exactly in the betting
    window, [round_active] exactly in the flight, and never both. *)
Theorem phase_follows_control (l : list Action) :
  let s := run l init_state in
  accepting_bets s = window_loc (loc s)
  ∧ round_active s = flight_loc (loc s)
  ∧ phase s = (if window_loc (loc s) then Waiting
               else if flight_loc (loc s) then Flight else Crashed)
  ∧ (accepting_bets s && round_active s = false).
Proof.
  cbv zeta. destruct (control_inv_run l init_state control_inv_init) as (H1 & H2).
  unfold phase. rewrite H1, H2. repeat split.
  destruct (loc (run l init_state)); reflexivity.
Qed.

(** X3: in every state reached from start-up with draws from
    [1.5, 3.0], both multipliers are exact hundredths [j / 100] and
    [n / 100] with [100 <= j <= n <= 300]: the multiplier a cashout pays
    with is never below 1.0, never above the crash point, and the crash
    point never above 3.0. *)
Theorem multiplier_within_bounds (l : list Action) :
  Forall draw_ok l →
  let s := run l init_state in
  ∃ j n : Z,
    100 ≤ j ≤ n ∧ n ≤ 300
    ∧ current_multiplier s = hundredths j
    ∧ crash_multiplier s = hundredths n
    ∧ (1 <=? current_multiplier s)%float = true
    ∧ (current_multiplier s <=? crash_multiplier s)%float = true
    ∧ (crash_multiplier s <=? 3)%float = true.
Proof.
  intros Hl. cbv zeta.
  destruct (multiplier_inv_run l init_state Hl multiplier_inv_init)
    as (j & n & Hjn & Hn & Hc & Hk & _).
  exists j, n. rewrite Hc, Hk.
  change 1%float with (hundredths 100). change 3%float with (hundredths 300).
  destruct (hundredths_order 100 j) as [_ ->]; try lia.
  destruct (hundredths_order j n) as [_ ->]; try lia.
  destruct (hundredths_order n 300) as [_ ->]; try lia.
  repeat split; try lia; apply Z.leb_le; lia.
Qed.

(** ** A round in closed form *)

Lemma engine_run_S (m : nat) (r : float) (s : State) :
  engine_run (S m) r s = engine_step r (engine_run m r s).
Proof. reflexivity. Qed.

(** The flight in closed form: [k] ticks from [j / 100] towards a crash
    point [n / 100] not yet reached take two engine steps each, lead to
    [(j + k) / 100], and send one update each; nothing else changes. *)
Lemma flight_closed_form (r : float) (n j : Z) (k : nat) :
  ∀ s, in_flight (hundredths n) s → current_multiplier s = hundredths j →
       100 ≤ j → j + Z.of_nat k ≤ n → n ≤ 300 →
       let e := engine_run (2 * k) r s in
       in_flight (hundredths n) e
       ∧ current_multiplier e = hundredths (j + Z.of_nat k)
       ∧ sent e = rev (updates j k) ++ sent s
       ∧ users e = users s ∧ bets e = bets s ∧ processed e = processed s.
Proof.
  induction k as [|k IH]; intros s Hs Hc Hj Hk Hn; cbv zeta.
  - cbn. rewrite Z.add_0_r. repeat split; try apply Hs; auto.
  - replace (2 * S k)%nat with (S (S (2 * k))) by lia. rewrite !engine_run_S.
    destruct (IH s Hs Hc Hj ltac:(lia) Hn) as (He & Hec & Hes & Heu & Heb & Hep).
    set (e := engine_run (2 * k) r s) in *. clearbody e.
    destruct He as (Hl & Hact & Hacc & Hcr).
    assert (engine_step r e =
            mkState (users e) (processed e) (bets e) (current_multiplier e)
              (crash_multiplier e) (round_active e) (accepting_bets e) LTickSleep (sent e)) as E1.
    { unfold engine_step. destruct Hl as [-> | ->]; unfold loop_test;
        rewrite Hec, Hcr; destruct (hundredths_order (j + Z.of_nat k) n) as [-> _];
        try lia; (destruct (Z.ltb_spec (j + Z.of_nat k) n); [reflexivity|lia]). }
    rewrite E1. unfold engine_step. cbn.
    rewrite Hec. fold (tick (hundredths (j + Z.of_nat k))).
    rewrite tick_hundredths by lia.
    replace (j + Z.of_nat k + 1) with (j + Z.of_nat (S k)) by lia.
    unfold in_flight. cbn. rewrite Hes. unfold updates at 2. rewrite seqZ_S, fmap_app, rev_app_distr.
    cbn. replace (j + 1 + Z.of_nat k) with (j + Z.of_nat (S k)) by lia.
    repeat split; auto.
Qed.

(** A whole flight: from the top of the loop with a draw that rounds to
    [n / 100], the state after three steps, after [2 * i] more for
    [i <= n - 100], and after the loop is left. *)
Lemma round_closed_form (s : State) (r : float) :
  loc s = LStart ∨ loc s = LPauseSleep → in_draw_range r →
  ∃ n, 150 ≤ n ≤ 300 ∧ py_round2 r = hundredths n
       ∧ (∀ i : nat, 100 + Z.of_nat i ≤ n →
            let e := engine_run (2 * i + 3) r s in
            in_flight (hundredths n) e
            ∧ current_multiplier e = hundredths (100 + Z.of_nat i)
            ∧ sent e = rev (updates 100 i) ++ EvStart (hundredths n) :: EvWaiting :: sent s
            ∧ users e = users s ∧ bets e = bets s)
       ∧ (let c := engine_run (2 * Z.to_nat (n - 100) + 4) r s in
          loc c = LCrashBcast
          ∧ round_active c = false ∧ accepting_bets c = false
          ∧ current_multiplier c = hundredths n
          ∧ crash_multiplier c = hundredths n
          ∧ sent c = EvCrash (hundredths n) :: rev (updates 100 (Z.to_nat (n - 100)))
                     ++ EvStart (hundredths n) :: EvWaiting :: sent s).
Proof.
  intros Hloc Hr. destruct (draw_rounds_to_hundredths r Hr) as (n & Hn & En).
  exists n. split; [exact Hn|]. split; [exact En|].
  set (f := engine_run 3 r s).
  assert (f = mkState (users s) (processed s) (bets s) 1%float (hundredths n)
                true false LStartBcast (EvStart (hundredths n) :: EvWaiting :: sent s)) as Ef.
  { unfold f. change (engine_run 3 r s)
      with (engine_step r (engine_step r (engine_step r s))).
    rewrite (engine_step_open r s Hloc). cbn. rewrite En. reflexivity. }
  assert (in_flight (hundredths n) f) as Hf by (rewrite Ef; repeat split; auto).
  assert (current_multiplier f = hundredths 100) as Hm by (rewrite Ef; reflexivity).
  assert (∀ i : nat, 100 + Z.of_nat i ≤ n →
            let e := engine_run (2 * i + 3) r s in
            in_flight (hundredths n) e
            ∧ current_multiplier e = hundredths (100 + Z.of_nat i)
            ∧ sent e = rev (updates 100 i) ++ EvStart (hundredths n) :: EvWaiting :: sent s
            ∧ users e = users s ∧ bets e = bets s) as Hticks.
  { intros i Hi. cbv zeta. rewrite engine_run_add. fold f.
    destruct (flight_closed_form r n 100 i f Hf Hm ltac:(lia) Hi ltac:(lia))
      as (H1 & H2 & H3 & H4 & H5 & _).
    split; [exact H1|]. split; [exact H2|].
    split; [rewrite H3, Ef; reflexivity|].
    split; [rewrite H4, Ef; reflexivity|rewrite H5, Ef; reflexivity]. }
  split; [exact Hticks|]. cbv zeta.
  set (k := Z.to_nat (n - 100)).
  replace (2 * k + 4)%nat with (S (2 * k + 3)) by lia. rewrite engine_run_S.
  destruct (Hticks k ltac:(lia)) as (He & Hec & Hes & _).
  set (e := engine_run (2 * k + 3) r s) in *. clearbody e.
  destruct He as (Hl & Hact & Hacc & Hcr).
  replace (100 + Z.of_nat k) with n in Hec by lia.
  unfold engine_step. destruct Hl as [-> | ->]; unfold loop_test;
    rewrite Hec, Hcr; destruct (hundredths_order n n) as [-> _]; try lia;
    rewrite Z.ltb_irrefl; cbn; rewrite Hes; auto 10.
Qed.

(** X4: a flight towards the crash point [n / 100] shows the multiplier
    [(100 + i) / 100] after its [i]-th tick, without drift, and is left
    after exactly [n - 100] ticks with the multiplier equal to the crash
    point: the loop never overshoots it. *)
Theorem flight_ends_at_crash_point (s : State) (r : float) :
  loc s = LStart ∨ loc s = LPauseSleep → in_draw_range r →
  ∃ n, 150 ≤ n ≤ 300
       ∧ crash_multiplier (engine_run 3 r s) = hundredths n
       ∧ (∀ i : nat, 100 + Z.of_nat i ≤ n →
            phase (engine_run (2 * i + 3) r s) = Flight
            ∧ current_multiplier (engine_run (2 * i + 3) r s)
              = hundredths (100 + Z.of_nat i))
       ∧ phase (engine_run (2 * Z.to_nat (n - 100) + 4) r s) = Crashed
       ∧ current_multiplier (engine_run (2 * Z.to_nat (n - 100) + 4) r s)
         = crash_multiplier (engine_run (2 * Z.to_nat (n - 100) + 4) r s).
Proof.
  intros Hloc Hr.
  destruct (round_closed_form s r Hloc Hr) as (n & Hn & En & Hticks & Hc).
  exists n. split; [exact Hn|]. split; [|split].
  - destruct (Hticks 0%nat ltac:(lia)) as ((_ & _ & _ & H) & _). exact H.
  - intros i Hi. destruct (Hticks i Hi) as ((_ & Hact & Hacc & _) & Hm & _).
    split; [|exact Hm]. unfold phase. rewrite Hacc, Hact. reflexivity.
  - cbv zeta in Hc. destruct Hc as (_ & Hact & Hacc & Hm & Hk & _).
    split; [|congruence]. unfold phase. rewrite Hacc, Hact. reflexivity.
Qed.

(** X5: the messages one round hands to [broadcast], in the order sent:
    waiting, start with the crash point, one update per tick carrying
    1.01, 1.02, ... up to the crash point, and crash with the crash point
    announced at the start. *)
Theorem round_broadcasts_in_order (s : State) (r : float) :
  loc s = LStart ∨ loc s = LPauseSleep → in_draw_range r →
  ∃ (n : Z) (k : nat),
    150 ≤ n ≤ 300 ∧ Z.of_nat k = n - 100
    ∧ rev (sent (engine_run (2 * k + 4) r s))
      = rev (sent s)
        ++ [EvWaiting; EvStart (hundredths n)]
        ++ updates 100 k
        ++ [EvCrash (hundredths n)].
Proof.
  intros Hloc Hr.
  destruct (round_closed_form s r Hloc Hr) as (n & Hn & En & _ & Hc).
  exists n, (Z.to_nat (n - 100)). split; [exact Hn|]. split; [lia|].
  cbv zeta in Hc. destruct Hc as (_ & _ & _ & _ & _ & Hs). rewrite Hs.
  cbn [rev]. rewrite rev_app_distr, rev_involutive. cbn [rev].
  rewrite <- !app_assoc. reflexivity.
Qed.

(** ** Handlers and the ledger *)

Lemma credit_dom (u : Z) (a : float) (f : gmap Z float) :
  dom (credit u a f) = {[u]} ∪ dom f.
Proof. unfold credit. destruct (f !! u); apply dom_insert_L. Qed.

Lemma process_tx_users_dom (tx : Tx) (s : State) :
  dom (users s) ⊆ dom (users (snd (process_tx tx s))).
Proof.
  rewrite process_tx_kind. destruct (tx_kind tx) as [| |u a]; try reflexivity.
  destruct (processed s !! hash tx); [reflexivity|].
  destruct (storable u); [|reflexivity]. cbn. rewrite credit_dom. set_solver.
Qed.

Lemma check_transactions_users_dom (txs : list Tx) :
  ∀ s, dom (users s) ⊆ dom (users (snd (check_transactions txs s))).
Proof.
  induction txs as [|tx rest IH]; intros s; [reflexivity|].
  cbn [check_transactions]. pose proof (process_tx_users_dom tx s) as H.
  destruct (process_tx tx s) as [[] s']; cbn [snd] in *;
    try (etransitivity; [exact H|apply IH]); exact H.
Qed.

(** How each action changes the set of accounts and the set of bettors. *)
Lemma step_domains (a : Action) (s : State) :
  dom (users s) ⊆ dom (users (step a s))
  ∧ (is_credit a = false → dom (users (step a s)) = dom (users s))
  ∧ (dom (bets s) ⊆ dom (users s) → dom (bets (step a s)) ⊆ dom (users (step a s))).
Proof.
  destruct a as [v|v x|v x|v|txs|r]; cbn [step is_credit].
  - auto.
  - destruct (storable v); [|split; [reflexivity|split; [discriminate|auto]]].
    cbn. rewrite credit_dom. split; [set_solver|]. split; [discriminate|set_solver].
  - destruct (storable v); [|auto].
    destruct (place_bet_cases v x s) as [[_ E]|[(_ & _ & E)|(_ & b & Hb & _ & E)]];
      rewrite E; cbn [snd]; auto.
    assert (v ∈ dom (users s)) as Hv by (apply elem_of_dom; eauto).
    cbn. rewrite !dom_insert_L. clear E Hb.
    split; [|split]; [set_solver|intros _; set_solver|intros Hsub; set_solver].
  - destruct (storable v); [|auto].
    unfold cashout. destruct (bets s !! v) as [bet|]; [|auto].
    destruct (users s !! v) as [b|] eqn:Hb; [|auto].
    assert (v ∈ dom (users s)) as Hv by (apply elem_of_dom; eauto).
    cbn. rewrite dom_insert_L, dom_delete_L. clear Hb.
    split; [|split]; [set_solver|intros _; set_solver|intros Hsub; set_solver].
  - rewrite check_transactions_bets.
    pose proof (check_transactions_users_dom txs s). split; [assumption|].
    split; [discriminate|set_solver].
  - unfold engine_step, loop_test.
    destruct (loc s); try reflexivity;
      try match goal with
          | |- context [(?a <? ?b)%float] => destruct (a <? b)%float
          end; cbn; auto.
    split; [reflexivity|]. split; [reflexivity|]. rewrite dom_empty_L. set_solver.
Qed.

(** X6: of two cashouts of one user in a row the second is always
    rejected and changes nothing, whatever the first one did: a bet cannot
    be paid twice. *)
Theorem second_cashout_rejected (u : Z) (s : State) :
  ∃ e, cashout u (snd (cashout u s)) = (Rejected e, snd (cashout u s)).
Proof.
  unfold cashout at 2 3. destruct (bets s !! u) as [bet|] eqn:Hbet.
  - destruct (users s !! u) as [b|] eqn:Hb.
    + exists NoActiveBet. cbn [snd]. apply cashout_without_bet.
      cbn. apply lookup_delete_eq.
    + exists UserNotFound. cbn [snd]. unfold cashout. rewrite Hbet, Hb. reflexivity.
  - exists NoActiveBet. cbn [snd]. apply cashout_without_bet, Hbet.
Qed.

(** X7: every user with a bet in the registry has an account, in every
    state reached from one where that holds (such as start-up); so the
    answer "user not found" of [cashout] (lines 102-103) never occurs. *)
Theorem bettors_have_accounts (l : list Action) (s : State) :
  dom (bets s) ⊆ dom (users s) →
  dom (bets (run l s)) ⊆ dom (users (run l s))
  ∧ ∀ u, fst (cashout u (run l s)) ≠ Rejected UserNotFound.
Proof.
  intros H.
  assert (dom (bets (run l s)) ⊆ dom (users (run l s))) as Hrun.
  { revert s H. induction l as [|a l IH]; intros s H; [exact H|].
    rewrite run_cons. apply IH. apply step_domains, H. }
  split; [exact Hrun|]. intros u. unfold cashout.
  destruct (bets (run l s) !! u) as [bet|] eqn:Hbet; [|discriminate].
  destruct (users (run l s) !! u) as [b|] eqn:Hb; [discriminate|].
  apply elem_of_dom_2 in Hbet. apply Hrun in Hbet.
  apply not_elem_of_dom in Hb. contradiction.
Qed.

(** X8: no action deletes an account, and only a top-up or a
    reconciliation pass creates one: bets, cashouts, balance queries and
    engine steps leave the set of accounts as it is. *)
Theorem accounts_never_deleted (l : list Action) (s : State) :
  dom (users s) ⊆ dom (users (run l s))
  ∧ (Forall (λ a, is_credit a = false) l → dom (users (run l s)) = dom (users s)).
Proof.
  split.
  - revert s. induction l as [|a l IH]; intros s; [reflexivity|].
    rewrite run_cons. etransitivity; [|apply IH]. apply step_domains.
  - revert s. induction l as [|a l IH]; intros s Hl; [reflexivity|].
    inversion Hl as [|? ? Ha Hl']; subst. rewrite run_cons, (IH _ Hl').
    apply step_domains, Ha.
Qed.

(** X9: a top-up, a bet and a cashout of user [v] leave the balance and
    the bet of every other user unchanged. *)
Theorem requests_touch_one_user (v u : Z) (x : float) (s : State) :
  v ≠ u →
  (users (snd (topup_balance v x s)) !! u = users s !! u
   ∧ bets (snd (topup_balance v x s)) !! u = bets s !! u)
  ∧ (users (snd (place_bet v x s)) !! u = users s !! u
     ∧ bets (snd (place_bet v x s)) !! u = bets s !! u)
  ∧ (users (snd (cashout v s)) !! u = users s !! u
     ∧ bets (snd (cashout v s)) !! u = bets s !! u).
Proof.
  intros Hne. split; [|split].
  - cbn. split; [|reflexivity]. unfold credit.
    destruct (users s !! v); apply lookup_insert_ne, Hne.
  - destruct (place_bet_cases v x s) as [[_ E]|[(_ & _ & E)|(_ & b & _ & _ & E)]];
      rewrite E; cbn [snd]; auto.
    cbn. rewrite !lookup_insert_ne by exact Hne. auto.
  - unfold cashout. destruct (bets s !! v); [|auto]. destruct (users s !! v); [|auto].
    cbn. rewrite lookup_insert_ne, lookup_delete_ne by exact Hne. auto.
Qed.

(** X11: [round_loop] never writes a balance or the store of processed
    hashes, and it only ever removes bets: stakes forfeited at a crash are
    not refunded. *)
Theorem engine_leaves_ledger (n : nat) (r : float) (s : State) :
  users (engine_run n r s) = users s
  ∧ processed (engine_run n r s) = processed s
  ∧ bets (engine_run n r s) ⊆ bets s.
Proof.
  induction n as [|n (IH1 & IH2 & IH3)]; [repeat split; reflexivity|].
  change (engine_run (S n) r s) with (engine_step r (engine_run n r s)).
  set (e := engine_run n r s) in *. clearbody e.
  unfold engine_step, loop_test.
  destruct (loc e);
    try match goal with
        | |- context [(?a <? ?b)%float] => destruct (a <? b)%float
        end; cbn; repeat split; try assumption.
  apply map_empty_subseteq.
Qed.

(** X12: requests are invisible to the engine: after any run, the
    multipliers, the flags, the control point and the messages sent are
    what the engine steps of the run alone produce. *)
Theorem requests_invisible_to_engine (l : list Action) (s : State) :
  engine_view (run l s) = engine_view (run (List.filter is_engine l) s).
Proof. apply run_engine_view. reflexivity. Qed.

(** ** Reconciliation passes and memos *)

Lemma process_tx_store (tx : Tx) (s : State) :
  fst (process_tx tx s) ≠ TxRaised →
  dom (processed (snd (process_tx tx s)))
  = dom (processed s) ∪ (if is_payment tx then {[hash tx]} else ∅).
Proof.
  unfold is_payment. rewrite process_tx_kind.
  destruct (tx_kind tx) as [| |u a]; cbn [fst snd]; intros H.
  - rewrite union_empty_r_L. reflexivity.
  - congruence.
  - destruct (processed s !! hash tx) as [v|] eqn:E; cbn [snd].
    + apply elem_of_dom_2 in E. symmetry. rewrite union_comm_L.
      apply subseteq_union_1_L, singleton_subseteq_l, E.
    + destruct (storable u); [|contradiction].
      cbn. rewrite dom_insert_L. apply union_comm_L.
Qed.

(** X13: a reconciliation pass that ends without an exception leaves in
    the store exactly the hashes it held before and the hashes of the
    payments of the list (transactions with a readable memo). *)
Theorem pass_stores_payment_hashes (txs : list Tx) (s : State) :
  fst (check_transactions txs s) = Checked →
  dom (processed (snd (check_transactions txs s)))
  = dom (processed s) ∪ payment_hashes txs.
Proof.
  revert s. induction txs as [|tx rest IH]; intros s H.
  - unfold payment_hashes. cbn. rewrite union_empty_r_L. reflexivity.
  - cbn [check_transactions] in *.
    pose proof (process_tx_store tx s) as Hs.
    destruct (process_tx tx s) as [o s'] eqn:E; cbn [fst snd] in *.
    assert (o ≠ TxRaised) as Ho by (intros ->; discriminate H).
    specialize (Hs Ho).
    assert (dom (processed (snd (check_transactions rest s')))
            = dom (processed s') ∪ payment_hashes rest) as Hr
      by (apply IH; destruct o; auto; discriminate H).
    assert (snd (match o with
                 | TxRaised => (Raised, s')
                 | _ => check_transactions rest s'
                 end) = snd (check_transactions rest s')) as ->
      by (destruct o; auto; congruence).
    rewrite Hr, Hs. unfold payment_hashes. cbn [List.filter].
    destruct (is_payment tx); cbn; [|rewrite union_empty_r_L; reflexivity].
    rewrite <- (assoc_L (∪)). reflexivity.
Qed.

(** X14: a transaction whose memo names a user but whose value does not
    fit a float raises in the middle of the pass (line 139 runs before the
    lookup of the hash): what the pass applied before it stays, and the
    transactions after it are not processed. *)
Theorem pass_stops_at_exception (pre post : list Tx) (tx : Tx) (msg : InMsg)
    (u : Z) (s : State) :
  memo_user tx = Some u → in_msg tx = Some msg → tx_amount msg = None →
  fst (check_transactions pre s) = Checked →
  check_transactions (pre ++ tx :: post) s
  = (Raised, snd (check_transactions pre s)).
Proof.
  intros Hu Hm Ha.
  assert (tx_kind tx = Overflowing) as Hk by (unfold tx_kind; rewrite Hu, Hm, Ha; reflexivity).
  revert s. induction pre as [|t pre IH]; intros s H; cbn [app check_transactions] in *.
  - rewrite process_tx_kind, Hk. reflexivity.
  - destruct (process_tx t s) as [[] s']; cbn [fst snd] in *;
      [apply IH, H|apply IH, H|discriminate H].
Qed.

(** X15: a transaction without a readable memo (no message, no comment,
    no [user_] prefix, or no integer behind it) is skipped: the pass gives
    the same answer and state as without it. *)
Theorem unreadable_memo_skipped (pre post : list Tx) (tx : Tx) (s : State) :
  memo_user tx = None →
  check_transactions (pre ++ tx :: post) s = check_transactions (pre ++ post) s.
Proof.
  intros Hu.
  assert (tx_kind tx = Unreadable) as Hk by (unfold tx_kind; rewrite Hu; reflexivity).
  revert s. induction pre as [|t pre IH]; intros s; cbn [app check_transactions].
  - rewrite process_tx_kind, Hk. reflexivity.
  - destruct (process_tx t s) as [[] s']; auto.
Qed.

(** X17: a payment whose memo names a user id outside 64 bits, and whose
    hash is not stored, raises at the SELECT of line 148: the pass ends with
    an exception, what it applied before stays, and the transactions after
    it are not processed. *)
Theorem pass_stops_at_unbound_id (pre post : list Tx) (tx : Tx) (msg : InMsg)
    (u : Z) (a : float) (s : State) :
  memo_user tx = Some u → storable u = false →
  in_msg tx = Some msg → tx_amount msg = Some a →
  fst (check_transactions pre s) = Checked →
  processed (snd (check_transactions pre s)) !! hash tx = None →
  check_transactions (pre ++ tx :: post) s
  = (Raised, snd (check_transactions pre s)).
Proof.
  intros Hu Hst Hm Ha.
  assert (tx_kind tx = Payment u a) as Hk by (unfold tx_kind; rewrite Hu, Hm, Ha; reflexivity).
  revert s. induction pre as [|t pre IH]; intros s H Hn; cbn [app check_transactions] in *.
  - cbn [snd] in Hn. rewrite process_tx_kind, Hk, Hn, Hst. reflexivity.
  - destruct (process_tx t s) as [[] s']; cbn [fst snd] in *;
      [apply IH; assumption|apply IH; assumption|discriminate H].
Qed.

(** [int()] outside plain numerals, as CPython 3.11 evaluates it: fullwidth
    digits and a leading no-break space are read, and so are surrounding
    whitespace, a sign and single underscores; a unit separator (0x1F), a
    space after the sign, a doubled underscore and a numeral of 4301 digits
    are refused. *)
Lemma py_int_samples :
  py_int (of_bytes [0xEF; 0xBC; 0x94; 0xEF; 0xBC; 0x92]) = Some 42
  ∧ py_int (of_bytes [0xC2; 0xA0; 0x31; 0x32]) = Some 12
  ∧ py_int " +1_000 " = Some 1000
  ∧ py_int (of_bytes [0x1F; 0x31; 0x32]) = None
  ∧ py_int "- 1" = None
  ∧ py_int "1__0" = None
  ∧ py_int (digits_string (repeat 9 4301)) = None.
Proof. vm_compute. repeat split. Qed.

Lemma digit_cases (d : Z) :
  0 ≤ d ≤ 9 →
  d = 0 ∨ d = 1 ∨ d = 2 ∨ d = 3 ∨ d = 4 ∨ d = 5 ∨ d = 6 ∨ d = 7 ∨ d = 8 ∨ d = 9.
Proof. lia. Qed.

Ltac each_digit H :=
  apply digit_cases in H;
  destruct H as [->|[->|[->|[->|[->|[->|[->|[->|[->| ->]]]]]]]]].

Lemma digit_of_char (d : Z) : 0 ≤ d ≤ 9 → digit_of (digit_char d) = Some d.
Proof. intros Hd. each_digit Hd; reflexivity. Qed.

Lemma parse_digits_string (ds : list Z) :
  Forall (λ d, 0 ≤ d ≤ 9) ds →
  ∀ acc b, ds ≠ [] ∨ b = true →
    parse_digits acc b (digits_string ds)
    = Some (fold_left (λ acc d, 10 * acc + d) ds acc).
Proof.
  induction 1 as [|d ds Hd Hds IH]; intros acc b Hb.
  - destruct Hb as [Hb| ->]; [contradiction|reflexivity].
  - cbn [digits_string fold_right fold_left parse_digits].
    rewrite (digit_of_char d Hd). apply IH. auto.
Qed.

Lemma count_digits_string (ds : list Z) :
  Forall (λ d, 0 ≤ d ≤ 9) ds → count_digits (digits_string ds) = Z.of_nat (length ds).
Proof.
  induction 1 as [|d ds Hd Hds IH]; [reflexivity|].
  cbn [digits_string fold_right count_digits length].
  rewrite (digit_of_char d Hd). fold (digits_string ds). rewrite IH. lia.
Qed.

(** An ASCII character is one byte. *)
Lemma utf8_decode_ascii (c : ascii) (s : string) :
  (byte_of c <? 128) = true →
  utf8_decode (String c s) = cons (byte_of c) <$> utf8_decode s.
Proof. intros H. cbn [utf8_decode]. rewrite H. reflexivity. Qed.

Lemma digit_char_ascii (d : Z) : 0 ≤ d ≤ 9 → (byte_of (digit_char d) <? 128) = true.
Proof. intros Hd. each_digit Hd; reflexivity. Qed.

(** A numeral is ASCII text: decoding and rewriting give it back. *)
Lemma to_ascii_digits (ds : list Z) :
  Forall (λ d, 0 ≤ d ≤ 9) ds →
  utf8_decode (digits_string ds) ≫= to_ascii = Some (digits_string ds).
Proof.
  induction 1 as [|d ds Hd Hds IH]; [reflexivity|].
  cbn [digits_string fold_right]. fold (digits_string ds).
  destruct (utf8_decode (digits_string ds)) as [cs|] eqn:E; [|discriminate IH].
  cbn in IH.
  rewrite (utf8_decode_ascii _ _ (digit_char_ascii d Hd)), E.
  cbn [fmap option_fmap option_map mbind option_bind to_ascii].
  rewrite (digit_char_ascii d Hd), IH.
  unfold byte_of. rewrite N2Z.id, ascii_N_embedding. reflexivity.
Qed.

Lemma remove_user_digits (ds : list Z) :
  Forall (λ d, 0 ≤ d ≤ 9) ds → remove_user_ (digits_string ds) = digits_string ds.
Proof.
  induction 1 as [|d ds Hd Hds IH]; [reflexivity|].
  cbn [digits_string fold_right]. fold (digits_string ds).
  each_digit Hd; cbn; rewrite IH; reflexivity.
Qed.

Lemma rstrip_digits (ds : list Z) :
  Forall (λ d, 0 ≤ d ≤ 9) ds → rstrip (digits_string ds) = digits_string ds.
Proof.
  induction 1 as [|d ds Hd Hds IH]; [reflexivity|].
  cbn [digits_string fold_right rstrip]. fold (digits_string ds). rewrite IH.
  destruct (digits_string ds); [|reflexivity].
  each_digit Hd; reflexivity.
Qed.

Lemma py_int_digits (ds : list Z) :
  ds ≠ [] → (length ds ≤ 4300)%nat → Forall (λ d, 0 ≤ d ≤ 9) ds →
  py_int (digits_string ds) = Some (digits_value ds).
Proof.
  intros Hne Hlen Hds. unfold py_int, digits_value.
  rewrite (to_ascii_digits ds Hds), (rstrip_digits ds Hds).
  rewrite <- (parse_digits_string ds Hds 0 false (or_introl Hne)).
  assert (parse_literal (digits_string ds) = parse_digits 0 false (digits_string ds)) as <-.
  { unfold parse_literal. rewrite (count_digits_string ds Hds).
    unfold max_str_digits. destruct (Z.leb_spec (Z.of_nat (length ds)) 4300); [reflexivity|lia]. }
  destruct Hds as [|d ds Hd Hds]; [contradiction|].
  cbn [digits_string fold_right]. each_digit Hd; reflexivity.
Qed.

Lemma memo_user_prefix (h : string) (v : option Z) (t : string) :
  memo_user (mkTx h (Some (mkInMsg (Some (String.append "user_" t)) v)))
  = py_int (remove_user_ t).
Proof. destruct t; reflexivity. Qed.

(** X16: the memo [user_] followed by a decimal numeral names the user
    with that number: [int()] reads the digits most significant first.
    (Up to 4300 digits, the length from which CPython's [int()] refuses a
    string.) *)
Theorem memo_names_user (h : string) (v : option Z) (ds : list Z) :
  ds ≠ [] → (length ds ≤ 4300)%nat → Forall (λ d, 0 ≤ d ≤ 9) ds →
  memo_user (mkTx h (Some (mkInMsg (Some (String.append "user_" (digits_string ds))) v)))
  = Some (digits_value ds).
Proof.
  intros Hne Hlen Hds. rewrite memo_user_prefix, (remove_user_digits ds Hds).
  apply py_int_digits; assumption.
Qed.

(** ** Concrete instances *)

Lemma multiplier_within_bounds_witness :
  Forall draw_ok (repeat (Engine 2) 5)
  ∧ (1 <=? current_multiplier (run (repeat (Engine 2) 5) init_state))%float = true
  ∧ (current_multiplier (run (repeat (Engine 2) 5) init_state)
     <=? crash_multiplier (run (repeat (Engine 2) 5) init_state))%float = true.
Proof.
  assert (Forall draw_ok (repeat (Engine 2) 5)) as H
    by (repeat constructor).
  destruct (multiplier_within_bounds _ H) as (j & n & _ & _ & _ & _ & H1 & H2 & _).
  split; [exact H|]. split; [exact H1|exact H2].
Defined.

Lemma flight_ends_at_crash_point_witness :
  in_draw_range 2
  ∧ ∃ n, 150 ≤ n ≤ 300
         ∧ crash_multiplier (engine_run 3 2 init_state) = hundredths n
         ∧ current_multiplier (engine_run (2 * Z.to_nat (n - 100) + 4) 2 init_state)
           = crash_multiplier (engine_run (2 * Z.to_nat (n - 100) + 4) 2 init_state).
Proof.
  assert (in_draw_range 2) as Hr by (split; reflexivity).
  destruct (flight_ends_at_crash_point init_state 2 (or_introl eq_refl) Hr)
    as (n & Hn & Hc & _ & _ & He).
  split; [exact Hr|]. exists n. split; [exact Hn|]. split; [exact Hc|exact He].
Defined.

Lemma round_broadcasts_in_order_witness :
  in_draw_range 2
  ∧ ∃ (n : Z) (k : nat),
      Z.of_nat k = n - 100
      ∧ rev (sent (engine_run (2 * k + 4) 2 init_state))
        = [EvWaiting; EvStart (hundredths n)] ++ updates 100 k ++ [EvCrash (hundredths n)].
Proof.
  assert (in_draw_range 2) as Hr by (split; reflexivity).
  destruct (round_broadcasts_in_order init_state 2 (or_introl eq_refl) Hr)
    as (n & k & _ & Hk & Hs).
  split; [exact Hr|]. exists n, k. split; [exact Hk|exact Hs].
Defined.

Lemma bettors_have_accounts_witness :
  dom (bets init_state) ⊆ dom (users init_state)
  ∧ dom (bets scenario_flight) ⊆ dom (users scenario_flight).
Proof.
  assert (dom (bets init_state) ⊆ dom (users init_state)) as H
    by (intros x Hx; exact Hx).
  split; [exact H|].
  exact (proj1 (bettors_have_accounts
                  ([Engine 2; TopUp 1 100; PlaceBet 1 20] ++ repeat (Engine 2) 108)
                  init_state H)).
Defined.

Lemma requests_touch_one_user_witness :
  1 ≠ 2
  ∧ users (snd (place_bet 1 20 scenario_open)) !! 2 = users scenario_open !! 2
  ∧ bets (snd (place_bet 1 20 scenario_open)) !! 2 = bets scenario_open !! 2.
Proof.
  assert (1 ≠ 2) as H by discriminate.
  split; [exact H|].
  exact (proj1 (proj2 (requests_touch_one_user 1 2 20 scenario_open H))).
Defined.

Lemma pass_stores_payment_hashes_witness :
  fst (check_transactions [scenario_plain_tx; scenario_tx] init_state) = Checked
  ∧ dom (processed (snd (check_transactions [scenario_plain_tx; scenario_tx] init_state)))
    = dom (processed init_state) ∪ payment_hashes [scenario_plain_tx; scenario_tx].
Proof.
  assert (fst (check_transactions [scenario_plain_tx; scenario_tx] init_state) = Checked)
    as H by (vm_compute; reflexivity).
  split; [exact H|]. exact (pass_stores_payment_hashes _ init_state H).
Defined.

Lemma pass_stops_at_exception_witness :
  memo_user scenario_huge_tx = Some 7
  ∧ tx_amount (mkInMsg (Some "user_7"%string) (Some (2 ^ 1024))) = None
  ∧ check_transactions ([scenario_tx] ++ scenario_huge_tx :: [scenario_plain_tx]) init_state
    = (Raised, snd (check_transactions [scenario_tx] init_state)).
Proof.
  assert (memo_user scenario_huge_tx = Some 7) as Hu by (vm_compute; reflexivity).
  assert (tx_amount (mkInMsg (Some "user_7"%string) (Some (2 ^ 1024))) = None) as Ha
    by (vm_compute; reflexivity).
  assert (fst (check_transactions [scenario_tx] init_state) = Checked) as Hp
    by (vm_compute; reflexivity).
  split; [exact Hu|]. split; [exact Ha|].
  exact (pass_stops_at_exception [scenario_tx] [scenario_plain_tx] scenario_huge_tx
           _ 7 init_state Hu eq_refl Ha Hp).
Defined.

Lemma unreadable_memo_skipped_witness :
  memo_user scenario_plain_tx = None
  ∧ check_transactions ([] ++ scenario_plain_tx :: [scenario_tx]) init_state
    = check_transactions ([] ++ [scenario_tx]) init_state.
Proof.
  assert (memo_user scenario_plain_tx = None) as H by (vm_compute; reflexivity).
  split; [exact H|].
  exact (unreadable_memo_skipped [] [scenario_tx] scenario_plain_tx init_state H).
Defined.

Lemma memo_names_user_witness :
  [4; 2] ≠ [] ∧ memo_user scenario_tx = Some 42.
Proof.
  assert ([4; 2] ≠ []) as H by discriminate.
  split; [exact H|].
  refine (memo_names_user "tx123" (Some 5000000000) [4; 2] H _ _).
  - repeat constructor.
  - repeat constructor; lia.
Defined.

Lemma pass_stops_at_unbound_id_witness :
  memo_user scenario_wide_tx = Some 9223372036854775808
  ∧ storable 9223372036854775808 = false
  ∧ check_transactions ([scenario_tx] ++ scenario_wide_tx :: [scenario_plain_tx]) init_state
    = (Raised, snd (check_transactions [scenario_tx] init_state)).
Proof.
  assert (memo_user scenario_wide_tx = Some 9223372036854775808) as Hu
    by (vm_compute; reflexivity).
  assert (storable 9223372036854775808 = false) as Hst by reflexivity.
  assert (tx_amount (mkInMsg (Some "user_9223372036854775808"%string) (Some 1000000000))
          = Some 1%float) as Ha by (vm_compute; reflexivity).
  assert (fst (check_transactions [scenario_tx] init_state) = Checked) as Hp
    by (vm_compute; reflexivity).
  assert (processed (snd (check_transactions [scenario_tx] init_state))
            !! hash scenario_wide_tx = None) as Hn by (vm_compute; reflexivity).
  split; [exact Hu|]. split; [exact Hst|].
  exact (pass_stops_at_unbound_id [scenario_tx] [scenario_plain_tx] scenario_wide_tx
           _ _ 1 init_state Hu Hst eq_refl Ha Hp Hn).
Defined.
